(** * Bulk email sender: the request-preparation pipeline of
      [src/components/email-sender-form.tsx]

    The component keeps its form in React state and prepares the send
    request in [handleSubmit]: the recipients text is split into lines,
    trimmed, lower-cased, de-duplicated through a [Set], validated with a
    regular expression, and only then posted to the send endpoint.
    [handleFileUpload] guards the spreadsheet upload by file extension.

    The development has four layers:
    - [JS]: the ECMAScript built-ins the component calls, on strings taken
      as sequences of UTF-16 code units;
    - [Regex]: a matcher for the regular expressions the validator uses;
    - the component itself, with its state as a record and the two network
      calls as oracles; [toLowerCase] is a parameter of the handlers, and
      each theorem says which facts of it it needs;
    - [Orchestrator]: the per-recipient send loop behind the send endpoint,
      which the component only calls. *)

From Stdlib Require Import String Ascii DecimalString.
From Stdlib Require Import List NArith ZArith Bool Lia.
Import ListNotations.

(* ================================================================== *)
(** ** ECMAScript strings and the built-ins used by the component *)
(* ================================================================== *)

Module JS.

Local Open Scope N_scope.

(** A string value is a finite sequence of 16-bit code units.  Nothing
    below depends on the bound, so a code unit is a plain number. *)
Definition code_unit := N.
Definition jsstring := list code_unit.

(** String literals of the source, written as Rocq strings. *)
Fixpoint lit (s : string) : jsstring :=
  match s with
  | EmptyString => []
  | String c s' => N_of_ascii c :: lit s'
  end.

Definition LF : code_unit := 10.
Definition AT : code_unit := 64.
Definition DOT : code_unit := 46.

(** [s1 === s2] on strings: the same code units. *)
Fixpoint str_eqb (s1 s2 : jsstring) : bool :=
  match s1, s2 with
  | [], [] => true
  | c1 :: t1, c2 :: t2 => (c1 =? c2) && str_eqb t1 t2
  | _, _ => false
  end.

(** WhiteSpace and LineTerminator code points: what [String.prototype.trim]
    strips and what the class escape [\s] matches. *)
Definition isWhiteSpace (c : code_unit) : bool :=
  (c =? 9) || (c =? 10) || (c =? 11) || (c =? 12) || (c =? 13) ||
  (c =? 32) || (c =? 160) || (c =? 5760) ||
  ((8192 <=? c) && (c <=? 8202)) ||
  (c =? 8232) || (c =? 8233) || (c =? 8239) || (c =? 8287) ||
  (c =? 12288) || (c =? 65279).

Fixpoint trimStart (s : jsstring) : jsstring :=
  match s with
  | [] => []
  | c :: s' => if isWhiteSpace c then trimStart s' else s
  end.

Definition trimEnd (s : jsstring) : jsstring := rev (trimStart (rev s)).

(** [s.trim()] *)
Definition trim (s : jsstring) : jsstring := trimEnd (trimStart s).

(** [s.split(sep)] for a separator of one code unit: the pieces between
    the occurrences of [sep]; the empty string gives one empty piece. *)
Fixpoint split (sep : code_unit) (s : jsstring) : list jsstring :=
  match s with
  | [] => [[]]
  | c :: s' =>
      if c =? sep then [] :: split sep s'
      else match split sep s' with
           | piece :: pieces => (c :: piece) :: pieces
           | [] => [[c]]
           end
  end.

(** [a.join(sep)] on an array of strings. *)
Fixpoint join (sep : jsstring) (a : list jsstring) : jsstring :=
  match a with
  | [] => []
  | [x] => x
  | x :: rest => x ++ sep ++ join sep rest
  end.

(** [s.endsWith(suffix)] *)
Definition endsWith (s suffix : jsstring) : bool :=
  (length suffix <=? length s)%nat &&
  str_eqb (skipn (length s - length suffix) s) suffix.

(** [new Set(iterable)] followed by [Array.from]: a set of strings is kept
    as the list of its elements in insertion order; [add] appends a value
    only when no element is the same string. *)
Definition Set_has (s : list jsstring) (x : jsstring) : bool :=
  existsb (str_eqb x) s.

Definition Set_add (s : list jsstring) (x : jsstring) : list jsstring :=
  if Set_has s x then s else s ++ [x].

Definition new_Set (a : list jsstring) : list jsstring :=
  fold_left Set_add a [].

(** A non-negative integer in a template literal: its decimal digits. *)
Definition Number_toString (n : nat) : jsstring :=
  lit (NilEmpty.string_of_uint (Nat.to_uint n)).

(** Lower-casing of one code unit of the Basic Latin block: [A]-[Z] go to
    [a]-[z], every other code unit is kept. *)
Definition lowerLatin (c : code_unit) : code_unit :=
  if (65 <=? c) && (c <=? 90) then c + 32 else c.

Definition isBasicLatin (c : code_unit) : bool := c <? 128.

End JS.

Import JS.

(* ================================================================== *)
(** ** Regular expressions over code units *)
(* ================================================================== *)

Module Regex.

(** The fragment of the pattern language the validator needs: character
    classes, concatenation and repetition; [Never], [Empty] and [Alt] close
    it under derivatives. *)
Inductive regex : Type :=
  | Never
  | Empty
  | Class (p : code_unit -> bool)
  | Seq (r1 r2 : regex)
  | Alt (r1 r2 : regex)
  | Star (r : regex).

(** [r+] *)
Definition Plus (r : regex) : regex := Seq r (Star r).

(** A literal code unit, such as [@] or the escaped [\.]. *)
Definition Chr (c : code_unit) : regex := Class (N.eqb c).

(** Does [r] match the empty string? *)
Fixpoint nullable (r : regex) : bool :=
  match r with
  | Never => false
  | Empty => true
  | Class _ => false
  | Seq r1 r2 => nullable r1 && nullable r2
  | Alt r1 r2 => nullable r1 || nullable r2
  | Star _ => true
  end.

(** What remains of [r] to be matched once the code unit [c] was read. *)
Fixpoint deriv (c : code_unit) (r : regex) : regex :=
  match r with
  | Never => Never
  | Empty => Never
  | Class p => if p c then Empty else Never
  | Seq r1 r2 =>
      if nullable r1 then Alt (Seq (deriv c r1) r2) (deriv c r2)
      else Seq (deriv c r1) r2
  | Alt r1 r2 => Alt (deriv c r1) (deriv c r2)
  | Star r1 => Seq (deriv c r1) (Star r1)
  end.

(** [/^r$/.test(s)]: with both anchors and no flags the pattern has to match
    the whole of [s]. *)
Fixpoint test (r : regex) (s : jsstring) : bool :=
  match s with
  | [] => nullable r
  | c :: s' => test (deriv c r) s'
  end.

(** The strings a pattern denotes. *)
Inductive Matches : regex -> jsstring -> Prop :=
  | MEmpty : Matches Empty []
  | MClass p c : p c = true -> Matches (Class p) [c]
  | MSeq r1 r2 s1 s2 :
      Matches r1 s1 -> Matches r2 s2 -> Matches (Seq r1 r2) (s1 ++ s2)
  | MAltL r1 r2 s : Matches r1 s -> Matches (Alt r1 r2) s
  | MAltR r1 r2 s : Matches r2 s -> Matches (Alt r1 r2) s
  | MStarNil r : Matches (Star r) []
  | MStarCons r s1 s2 :
      Matches r s1 -> Matches (Star r) s2 -> Matches (Star r) (s1 ++ s2).

End Regex.

(* ================================================================== *)
(** ** The component: state, network oracles, handlers *)
(* ================================================================== *)

(** [interface EmailResult] *)
Record EmailResult : Type := mkEmailResult {
  email : jsstring;
  success : bool;
  message : jsstring
}.

(** [interface EmailResponse]; the numbers are the integers of the JSON
    report. *)
Record EmailResponse : Type := mkEmailResponse {
  total : Z;
  successful : Z;
  failed : Z;
  results : list EmailResult
}.

(** The [useState] cells of [EmailSenderForm]. *)
Record FormState : Type := mkFormState {
  st_subject : jsstring;
  st_body : jsstring;
  st_recipients : jsstring;
  st_loading : bool;
  st_results : option EmailResponse;
  st_error : jsstring;
  st_uploading : bool;
  st_duplicateInfo : jsstring
}.

Definition setSubject (v : jsstring) (st : FormState) : FormState :=
  mkFormState v (st_body st) (st_recipients st) (st_loading st)
    (st_results st) (st_error st) (st_uploading st) (st_duplicateInfo st).

Definition setBody (v : jsstring) (st : FormState) : FormState :=
  mkFormState (st_subject st) v (st_recipients st) (st_loading st)
    (st_results st) (st_error st) (st_uploading st) (st_duplicateInfo st).

Definition setRecipients (v : jsstring) (st : FormState) : FormState :=
  mkFormState (st_subject st) (st_body st) v (st_loading st)
    (st_results st) (st_error st) (st_uploading st) (st_duplicateInfo st).

Definition setLoading (v : bool) (st : FormState) : FormState :=
  mkFormState (st_subject st) (st_body st) (st_recipients st) v
    (st_results st) (st_error st) (st_uploading st) (st_duplicateInfo st).

Definition setResults (v : option EmailResponse) (st : FormState) : FormState :=
  mkFormState (st_subject st) (st_body st) (st_recipients st) (st_loading st)
    v (st_error st) (st_uploading st) (st_duplicateInfo st).

Definition setError (v : jsstring) (st : FormState) : FormState :=
  mkFormState (st_subject st) (st_body st) (st_recipients st) (st_loading st)
    (st_results st) v (st_uploading st) (st_duplicateInfo st).

Definition setUploading (v : bool) (st : FormState) : FormState :=
  mkFormState (st_subject st) (st_body st) (st_recipients st) (st_loading st)
    (st_results st) (st_error st) v (st_duplicateInfo st).

Definition setDuplicateInfo (v : jsstring) (st : FormState) : FormState :=
  mkFormState (st_subject st) (st_body st) (st_recipients st) (st_loading st)
    (st_results st) (st_error st) (st_uploading st) v.

(** The JSON body posted to [/send-emails]. *)
Record SendRequest : Type := mkSendRequest {
  req_subject : jsstring;
  req_body : jsstring;
  req_recipients : list jsstring
}.

(** What a [catch (err)] clause receives: an [Error] with its message, or
    some other value. *)
Inductive thrown : Type :=
  | ErrorObject (msg : jsstring)
  | OtherValue.

(** [err instanceof Error ? err.message : "An error occurred"] *)
Definition catch_message (e : thrown) : jsstring :=
  match e with
  | ErrorObject msg => msg
  | OtherValue => lit "An error occurred"
  end.

(** [detail || fallback] for a [detail] that is a string or is absent: the
    empty string is falsy. *)
Definition or_else (detail : option jsstring) (fallback : jsstring) : jsstring :=
  match detail with
  | Some (c :: d) => c :: d
  | _ => fallback
  end.

(** The ways the [await]ed calls of [handleSubmit] can end: [fetch] or
    [response.json()] throws; the response is not ok and carries
    [errorData.detail]; the response is ok and carries the report. *)
Inductive send_outcome : Type :=
  | SendThrows (e : thrown)
  | SendNotOk (detail : option jsstring)
  | SendOk (data : EmailResponse).

(** The chosen file: only its name matters to the component. *)
Record File : Type := mkFile { name : jsstring }.

(** The same for [/upload-excel]; an ok response carries [data.emails]. *)
Inductive upload_outcome : Type :=
  | UploadThrows (e : thrown)
  | UploadNotOk (detail : option jsstring)
  | UploadOk (emails : list jsstring).

(** [/^[^\s@]+@[^\s@]+\.[^\s@]+$/] *)
Definition address_char (c : code_unit) : bool :=
  negb (isWhiteSpace c || (c =? AT)%N).

Definition email_pattern : Regex.regex :=
  Regex.Seq (Regex.Plus (Regex.Class address_char))
    (Regex.Seq (Regex.Chr AT)
       (Regex.Seq (Regex.Plus (Regex.Class address_char))
          (Regex.Seq (Regex.Chr DOT)
             (Regex.Plus (Regex.Class address_char))))).

Definition validateEmail (email : jsstring) : bool :=
  Regex.test email_pattern (trim email).

(** [email.length > 0] *)
Definition nonempty (s : jsstring) : bool :=
  match s with [] => false | _ :: _ => true end.

(** [!s]: a string is falsy when it is empty. *)
Definition falsy (s : jsstring) : bool := negb (nonempty s).

Section Handlers.

(** [String.prototype.toLowerCase], a built-in of the host: the locale
    independent Unicode lower-casing.  The handlers are written over it. *)
Variable toLowerCase : jsstring -> jsstring.

(** [const recipientList] of [handleSubmit] *)
Definition recipientList (recipients : jsstring) : list jsstring :=
  filter nonempty (map trim (split LF recipients)).

(** [const uniqueRecipients] of [handleSubmit] *)
Definition uniqueRecipients (recipients : jsstring) : list jsstring :=
  new_Set (map toLowerCase (recipientList recipients)).

(** [const invalidEmails] of [handleSubmit] *)
Definition invalidEmails (recipients : jsstring) : list jsstring :=
  filter (fun email => negb (validateEmail email)) (uniqueRecipients recipients).

(** [const removedCount] of [handleSubmit] *)
Definition removedCount (recipients : jsstring) : nat :=
  length (recipientList recipients) - length (uniqueRecipients recipients).

(** The second half of [handleSubmit]: the [try] block around [fetch], its
    [catch] and its [finally].  [st] is the state once [setLoading(true)]
    has run. *)
Definition after_fetch (out : send_outcome) (st : FormState) : FormState :=
  let st' :=
    match out with
    | SendOk data =>
        let st1 := setResults (Some data) st in
        if (successful data =? total data)%Z
        then setRecipients [] (setBody [] (setSubject [] st1))
        else st1
    | SendNotOk detail =>
        setError (or_else detail (lit "Failed to send emails")) st
    | SendThrows e => setError (catch_message e) st
    end in
  setLoading false st'.

(** [handleSubmit]: from the state the handler closes over to the state
    once it has run, with the requests posted to [/send-emails].  [fetch]
    stands for the network.  The values read ([subject], [body],
    [recipients]) are those of [st]. *)
Definition handleSubmit (fetch : SendRequest -> send_outcome) (st : FormState)
  : FormState * list SendRequest :=
  let st0 := setDuplicateInfo [] (setResults None (setError [] st)) in
  let list := recipientList (st_recipients st) in
  let unique := uniqueRecipients (st_recipients st) in
  if (length unique =? 0)%nat then
    (setError (lit "Please enter at least one recipient email address") st0, [])
  else
    let invalid := invalidEmails (st_recipients st) in
    if (0 <? length invalid)%nat then
      (setError (lit "Invalid email addresses: " ++ join (lit ", ") invalid) st0, [])
    else
      let st1 :=
        if (length unique <? length list)%nat then
          setDuplicateInfo
            (Number_toString (removedCount (st_recipients st))
               ++ lit " duplicate email address removed") st0
        else setDuplicateInfo [] st0 in
      if falsy (trim (st_subject st)) then
        (setError (lit "Please enter a subject") st1, [])
      else if falsy (trim (st_body st)) then
        (setError (lit "Please enter a message") st1, [])
      else
        let request :=
          mkSendRequest (st_subject st) (st_body st) unique in
        (after_fetch (fetch request) (setLoading true st1), [request]).

End Handlers.

(** [handleFileUpload], with the files posted to [/upload-excel]. *)
Definition handleFileUpload (fetch : File -> upload_outcome)
    (file : option File) (st : FormState) : FormState * list File :=
  match file with
  | None => (st, [])
  | Some f =>
      if negb (endsWith (name f) (lit ".xlsx")) &&
         negb (endsWith (name f) (lit ".xls"))
      then (setError (lit "Please upload an Excel file (.xlsx or .xls)") st, [])
      else
        let st1 := setError [] (setUploading true st) in
        let st2 :=
          match fetch f with
          | UploadOk emails =>
              setError [] (setRecipients (join [LF] emails) st1)
          | UploadNotOk detail =>
              setError (or_else detail (lit "Failed to upload Excel file")) st1
          | UploadThrows e => setError (catch_message e) st1
          end in
        (setUploading false st2, [f])
  end.

(** Lower-casing restricted to the Basic Latin block, code unit by code
    unit: what [toLowerCase] does on the strings of that block. *)
Definition toLowerCaseLatin (s : jsstring) : jsstring := map lowerLatin s.

(* ================================================================== *)
(** ** The normalizer as the specification words it *)
(* ================================================================== *)

(** Keep the first occurrence of every string, in first-seen order. *)
Fixpoint first_occurrences (l : list jsstring) : list jsstring :=
  match l with
  | [] => []
  | x :: rest =>
      x :: filter (fun y => negb (str_eqb x y)) (first_occurrences rest)
  end.

(** Split on newlines, trim each line, drop the empty lines, lower-case
    what remains, keep first occurrences. *)
Definition spec_normalize (toLowerCase : jsstring -> jsstring)
    (raw : jsstring) : list jsstring :=
  first_occurrences
    (map toLowerCase (filter nonempty (map trim (split LF raw)))).

(** The non-empty trimmed lines less the distinct entries. *)
Definition spec_duplicate_count (toLowerCase : jsstring -> jsstring)
    (raw : jsstring) : nat :=
  length (filter nonempty (map trim (split LF raw)))
  - length (spec_normalize toLowerCase raw).

(** One or more code units, none of them white space or [@]. *)
Definition address_part (s : jsstring) : Prop :=
  s <> [] /\ Forall (fun c => isWhiteSpace c = false /\ c <> AT) s.

(** local [@] domain [.] tld *)
Definition address_shape (s : jsstring) : Prop :=
  exists local domain tld,
    s = local ++ [AT] ++ domain ++ [DOT] ++ tld /\
    address_part local /\ address_part domain /\ address_part tld.

(** The example of the specification: three lines, two of them the same
    address up to case. *)
Definition three_lines : jsstring :=
  lit "a@b.com" ++ [LF] ++ lit "a@B.com" ++ [LF] ++ lit "c@d.org".

(** [s] ends in [suffix]. *)
Definition ends_in (s suffix : jsstring) : Prop :=
  exists front, s = front ++ suffix.

(** A form filled in with a subject, a body and the given recipients
    text, nothing else set. *)
Definition filled_form (recipients : jsstring) : FormState :=
  mkFormState (lit "S") (lit "B") recipients false None [] false [].

(** A network that answers every send with the given outcome. *)
Definition always (out : send_outcome) : SendRequest -> send_outcome :=
  fun _ => out.

(** The request a filled form with the specification's three lines
    posts, and a report in which both sends succeeded. *)
Definition three_lines_request : SendRequest :=
  mkSendRequest (lit "S") (lit "B") [lit "a@b.com"; lit "c@d.org"].

Definition all_sent : EmailResponse :=
  mkEmailResponse 2 2 0
    [mkEmailResult (lit "a@b.com") true (lit "Email sent successfully");
     mkEmailResult (lit "c@d.org") true (lit "Email sent successfully")].

(** Two lines that are the same address up to case, and a line that is
    no address. *)
Definition duplicate_and_invalid : jsstring :=
  lit "a@b.com" ++ [LF] ++ lit "A@B.com" ++ [LF] ++ lit "not-an-email".

(* ================================================================== *)
(** ** The send orchestrator *)
(* ================================================================== *)

Module Orchestrator.

(** What the delivery provider answers to one invocation. *)
Inductive delivery : Type :=
  | Delivered
  | Refused (reason : jsstring).

(** One invocation of the provider: (to, subject, htmlBody). *)
Record invocation : Type := mkInvocation {
  inv_to : jsstring;
  inv_subject : jsstring;
  inv_html : jsstring
}.

Section Send.

(** The provider is an external service: it answers an invocation from a
    state of its own, which the invocation may change. *)
Variable PState : Type.
Variable provider : PState -> invocation -> delivery * PState.

(** Modelled from the spec: the server behind [/send-emails]
    (backend/main.py in the README's project tree) is not among the
    sources.  One delivery attempt, following section 4.4 and the
    error taxonomy of section 7: a refusal is not an error of the loop but
    a [SendResult] with [success = false]; the message texts are those of
    the README's sample report. *)
Definition attempt (subject body recipient : jsstring) (ps : PState)
  : EmailResult * PState :=
  match provider ps (mkInvocation recipient subject body) with
  | (Delivered, ps') =>
      (mkEmailResult recipient true (lit "Email sent successfully"), ps')
  | (Refused reason, ps') =>
      (mkEmailResult recipient false (lit "Failed: " ++ reason), ps')
  end.

(** Modelled from the spec: the sequential loop of section 4.4 over the
    recipients, collecting one result per recipient and, beside it, the
    invocations made. *)
Fixpoint send_loop (subject body : jsstring) (recipients : list jsstring)
    (ps : PState) (acc : list EmailResult) (log : list invocation)
  : list EmailResult * list invocation * PState :=
  match recipients with
  | [] => (acc, log, ps)
  | r :: rest =>
      let '(res, ps') := attempt subject body r ps in
      send_loop subject body rest ps'
        (acc ++ [res]) (log ++ [mkInvocation r subject body])
  end.

(** Modelled from the spec: the report of section 4.4,
    [total = recipients.length], [successful] the count of results with
    [success = true], [failed = total - successful]. *)
Definition send_emails (subject body : jsstring) (recipients : list jsstring)
    (ps : PState) : EmailResponse * list invocation :=
  let '(res, log, _) := send_loop subject body recipients ps [] [] in
  let total := Z.of_nat (length recipients) in
  let successful := Z.of_nat (length (filter success res)) in
  (mkEmailResponse total successful (total - successful)%Z res, log).

End Send.

Arguments attempt {PState} provider subject body recipient ps.
Arguments send_loop {PState} provider subject body recipients ps acc log.
Arguments send_emails {PState} provider subject body recipients ps.

(** A provider without state of its own, answering by the invocation. *)
Definition stateless (answer : invocation -> delivery)
  : unit -> invocation -> delivery * unit :=
  fun ps inv => (answer inv, ps).

(** What a stateless provider's answer becomes in the report. *)
Definition result_of (answer : invocation -> delivery)
    (subject body recipient : jsstring) : EmailResult :=
  fst (attempt (stateless answer) subject body recipient tt).

(** The provider of the specification's example: it delivers to
    [x@a.com] and refuses everything else. *)
Definition only_x (inv : invocation) : delivery :=
  if str_eqb (inv_to inv) (lit "x@a.com") then Delivered
  else Refused (lit "Invalid email address").

End Orchestrator.

(* ================================================================== *)
(** ** What the component renders from its state *)
(* ================================================================== *)

Definition CR : code_unit := 13%N.

(** The counter beside the upload button,
    [recipients && (... recipients.split('\n').filter(e => e.trim()).length
    ... recipients)]: absent for an empty text, else the number of lines
    that are not blank. *)
Definition recipientCounter (recipients : jsstring) : option nat :=
  if nonempty recipients
  then Some (length (filter (fun e => nonempty (trim e))
                       (split LF recipients)))
  else None.

(** [{error && <Alert variant="destructive"> ...}] *)
Definition showsError (st : FormState) : bool := nonempty (st_error st).

(** [{results && <Card> ...}] *)
Definition showsResults (st : FormState) : bool :=
  match st_results st with
  | Some _ => true
  | None => false
  end.

(** Equality of strings is decidable. *)
Definition str_dec : forall a b : jsstring, {a = b} + {a <> b} :=
  list_eq_dec N.eq_dec.

(** A file with a recognized name, and an upload that answers with the
    given rows. *)
Definition spreadsheet : File := mkFile (lit "list.xlsx").

Definition rows (emails : list jsstring) : File -> upload_outcome :=
  fun _ => UploadOk emails.

(* ================================================================== *)
(** ** Built-ins: worked examples and basic facts *)
(* ================================================================== *)


Example lit_hi : lit "a@B" = [97; 64; 66]%N.
Proof. reflexivity. Qed.

Example split_three :
  split LF (lit "x" ++ [LF] ++ lit "yz" ++ [LF]) = [lit "x"; lit "yz"; []].
Proof. reflexivity. Qed.

Example trim_both : trim (lit "  a b " ++ [13; 9]%N) = lit "a b".
Proof. reflexivity. Qed.

Example join_two : join (lit ", ") [lit "a"; lit "b"] = lit "a, b".
Proof. reflexivity. Qed.

Example endsWith_xls : endsWith (lit "list.xls") (lit ".xls") = true.
Proof. reflexivity. Qed.

Example set_order :
  new_Set [lit "b"; lit "a"; lit "b"; lit "c"; lit "a"] = [lit "b"; lit "a"; lit "c"].
Proof. reflexivity. Qed.

Example toString_12 : Number_toString 12 = lit "12".
Proof. reflexivity. Qed.

Lemma str_eqb_eq (a b : jsstring) : str_eqb a b = true <-> a = b.
Proof.
  revert b; induction a as [|x a IH]; intros [|y b]; simpl;
    try (split; [discriminate | congruence]); try tauto.
  rewrite andb_true_iff, N.eqb_eq, IH.
  split; [intros [-> ->]; reflexivity | intros E; inversion E; auto].
Qed.

Lemma str_eqb_refl (a : jsstring) : str_eqb a a = true.
Proof. apply str_eqb_eq; reflexivity. Qed.

Lemma str_eqb_neq (a b : jsstring) : str_eqb a b = false <-> a <> b.
Proof.
  rewrite <- not_true_iff_false, str_eqb_eq; tauto.
Qed.

Lemma str_eqb_sym (a b : jsstring) : str_eqb a b = str_eqb b a.
Proof.
  destruct (str_eqb b a) eqn:E.
  - apply str_eqb_eq in E; subst; apply str_eqb_refl.
  - apply str_eqb_neq; apply str_eqb_neq in E; congruence.
Qed.

Lemma Set_has_In (s : list jsstring) (x : jsstring) :
  Set_has s x = true <-> In x s.
Proof.
  unfold Set_has; rewrite existsb_exists; split.
  - intros (y & Hy & E); apply str_eqb_eq in E; subst; assumption.
  - intros H; exists x; split; [assumption | apply str_eqb_refl].
Qed.

Lemma Set_has_app (s t : list jsstring) (x : jsstring) :
  Set_has (s ++ t) x = Set_has s x || Set_has t x.
Proof. unfold Set_has; apply existsb_app. Qed.

Lemma filter_filter {A} (f g : A -> bool) (l : list A) :
  filter f (filter g l) = filter (fun y => g y && f y) l.
Proof.
  induction l as [|x l IH]; simpl; [reflexivity|].
  destruct (g x); simpl; [destruct (f x)|]; rewrite IH; reflexivity.
Qed.

(** The insertion loop of [new Set], from any set built so far. *)
Lemma fold_Set_add (l acc : list jsstring) :
  fold_left Set_add l acc =
  acc ++ filter (fun y => negb (Set_has acc y)) (first_occurrences l).
Proof.
  revert acc; induction l as [|x l IH]; intros acc; simpl.
  - symmetry; apply app_nil_r.
  - rewrite IH; unfold Set_add; destruct (Set_has acc x) eqn:Hx; simpl.
    + f_equal; rewrite filter_filter; apply filter_ext; intros y.
      destruct (str_eqb x y) eqn:E; simpl; [|reflexivity].
      apply str_eqb_eq in E; subst; rewrite Hx; reflexivity.
    + rewrite <- app_assoc; simpl; do 2 f_equal.
      rewrite filter_filter; apply filter_ext; intros y.
      rewrite Set_has_app; simpl; rewrite orb_false_r.
      rewrite (str_eqb_sym y x), negb_orb; apply andb_comm.
Qed.

(** [Array.from(new Set(a))] keeps the first occurrence of every element
    of [a], in the order of [a]. *)
Lemma new_Set_first_occurrences (a : list jsstring) :
  new_Set a = first_occurrences a.
Proof.
  unfold new_Set; rewrite fold_Set_add; simpl.
  induction (first_occurrences a) as [|x l IH]; simpl; congruence.
Qed.

Lemma first_occurrences_In (l : list jsstring) (x : jsstring) :
  In x (first_occurrences l) <-> In x l.
Proof.
  induction l as [|y l IH]; simpl; [tauto|].
  rewrite filter_In, IH, negb_true_iff, str_eqb_neq.
  destruct (str_eqb y x) eqn:E.
  - apply str_eqb_eq in E; tauto.
  - apply str_eqb_neq in E; tauto.
Qed.

Lemma NoDup_filter {A} (f : A -> bool) (l : list A) :
  NoDup l -> NoDup (filter f l).
Proof.
  induction 1 as [|x l Hx _ IH]; simpl; [constructor|].
  destruct (f x); [constructor|]; try assumption.
  rewrite filter_In; tauto.
Qed.

Lemma first_occurrences_NoDup (l : list jsstring) : NoDup (first_occurrences l).
Proof.
  induction l as [|x l IH]; simpl; constructor.
  - rewrite filter_In, str_eqb_refl; simpl; intros [_ H]; discriminate.
  - apply NoDup_filter; assumption.
Qed.

Lemma first_occurrences_length (l : list jsstring) :
  (length (first_occurrences l) <= length l)%nat.
Proof.
  induction l as [|x l IH]; simpl; [lia|].
  pose proof (filter_length_le (fun y => negb (str_eqb x y)) (first_occurrences l)).
  lia.
Qed.

(** A list without repetition is its own list of first occurrences. *)
Lemma first_occurrences_id (l : list jsstring) :
  NoDup l -> first_occurrences l = l.
Proof.
  induction 1 as [|x l Hx _ IH]; simpl; [reflexivity|].
  rewrite IH; f_equal.
  clear IH; induction l as [|y l IH]; simpl; [reflexivity|].
  destruct (str_eqb x y) eqn:E; simpl.
  - apply str_eqb_eq in E; subst; exfalso; apply Hx; left; reflexivity.
  - f_equal; apply IH; intros H; apply Hx; right; assumption.
Qed.

(** *** Trimming *)

Lemma trimStart_idem (s : jsstring) : trimStart (trimStart s) = trimStart s.
Proof.
  induction s as [|c s IH]; simpl; [reflexivity|].
  destruct (isWhiteSpace c) eqn:E; [assumption|].
  simpl; rewrite E; reflexivity.
Qed.

Lemma trimStart_snoc (s : jsstring) (c : code_unit) :
  trimStart (s ++ [c]) =
  if nonempty (trimStart s) then trimStart s ++ [c]
  else if isWhiteSpace c then [] else [c].
Proof.
  induction s as [|d s IH]; simpl.
  - destruct (isWhiteSpace c); reflexivity.
  - destruct (isWhiteSpace d); [assumption | reflexivity].
Qed.

(** [trimEnd] read from the front of the string. *)
Lemma trimEnd_cons (c : code_unit) (s : jsstring) :
  trimEnd (c :: s) =
  if nonempty (trimEnd s) then c :: trimEnd s
  else if isWhiteSpace c then [] else [c].
Proof.
  unfold trimEnd; simpl; rewrite trimStart_snoc.
  destruct (trimStart (rev s)) as [|d t] eqn:E; simpl.
  - destruct (isWhiteSpace c); reflexivity.
  - rewrite rev_app_distr; simpl.
    destruct (rev t ++ [d]) eqn:E'; [|reflexivity].
    destruct (rev t); discriminate.
Qed.

Lemma trimEnd_idem (s : jsstring) : trimEnd (trimEnd s) = trimEnd s.
Proof.
  unfold trimEnd; rewrite rev_involutive, trimStart_idem; reflexivity.
Qed.

Lemma trimStart_trimEnd (s : jsstring) :
  trimStart (trimEnd s) = trimEnd (trimStart s).
Proof.
  induction s as [|c s IH]; [reflexivity|].
  rewrite trimEnd_cons; simpl.
  destruct (isWhiteSpace c) eqn:E.
  - rewrite <- IH; destruct (trimEnd s); simpl; [reflexivity|].
    rewrite E; reflexivity.
  - rewrite trimEnd_cons.
    destruct (nonempty (trimEnd s)); simpl; rewrite E; reflexivity.
Qed.

(** Trimming a trimmed string changes nothing. *)
Lemma trim_idem (s : jsstring) : trim (trim s) = trim s.
Proof.
  unfold trim.
  rewrite trimStart_trimEnd, trimStart_idem, trimEnd_idem; reflexivity.
Qed.

Lemma trimStart_incl (s : jsstring) (c : code_unit) :
  In c (trimStart s) -> In c s.
Proof.
  induction s as [|d s IH]; simpl; [tauto|].
  destruct (isWhiteSpace d); simpl; tauto.
Qed.

Lemma trim_incl (s : jsstring) (c : code_unit) : In c (trim s) -> In c s.
Proof.
  unfold trim, trimEnd; intros H.
  apply in_rev, trimStart_incl, in_rev, trimStart_incl in H; assumption.
Qed.

Lemma trimStart_no_space (s : jsstring) :
  forallb (fun c => negb (isWhiteSpace c)) s = true -> trimStart s = s.
Proof.
  destruct s as [|c s]; simpl; [reflexivity|].
  destruct (isWhiteSpace c); simpl; [discriminate | reflexivity].
Qed.

(** A string without white space is left alone by [trim]. *)
Lemma trim_no_space (s : jsstring) :
  forallb (fun c => negb (isWhiteSpace c)) s = true -> trim s = s.
Proof.
  intros H; unfold trim, trimEnd.
  rewrite (trimStart_no_space s H), trimStart_no_space.
  - apply rev_involutive.
  - rewrite forallb_forall in *; intros c Hc; apply H, in_rev; assumption.
Qed.

(** *** Splitting and joining *)

Lemma split_not_nil (sep : code_unit) (s : jsstring) : split sep s <> [].
Proof.
  destruct s as [|c s]; simpl; [discriminate|].
  destruct (c =? sep)%N; [discriminate|].
  destruct (split sep s); discriminate.
Qed.

(** No piece of a split holds the separator. *)
Lemma split_pieces (sep : code_unit) (s : jsstring) :
  Forall (fun piece => ~ In sep piece) (split sep s).
Proof.
  induction s as [|c s IH]; simpl.
  - constructor; [tauto | constructor].
  - destruct (c =? sep)%N eqn:E.
    + constructor; [simpl; tauto | assumption].
    + apply N.eqb_neq in E.
      destruct (split sep s) as [|p ps].
      * constructor; [|constructor].
        simpl; intros [H | H]; [congruence | contradiction].
      * inversion IH; subst; constructor; [|assumption].
        simpl; intros [H | H]; [congruence | contradiction].
Qed.

Lemma split_no_sep (sep : code_unit) (s : jsstring) :
  ~ In sep s -> split sep s = [s].
Proof.
  induction s as [|c s IH]; simpl; [reflexivity|]; intros H.
  destruct (c =? sep)%N eqn:E.
  - apply N.eqb_eq in E; tauto.
  - rewrite IH by tauto; reflexivity.
Qed.

Lemma split_app_sep (sep : code_unit) (s rest : jsstring) :
  ~ In sep s -> split sep (s ++ sep :: rest) = s :: split sep rest.
Proof.
  induction s as [|c s IH]; simpl; intros H.
  - rewrite N.eqb_refl; reflexivity.
  - destruct (c =? sep)%N eqn:E.
    + apply N.eqb_eq in E; tauto.
    + rewrite IH by tauto; reflexivity.
Qed.

(** Splitting what [join] assembled gives the pieces back, when there is a
    piece and no piece holds the separator. *)
Lemma split_join (sep : code_unit) (a : list jsstring) :
  a <> [] -> Forall (fun x => ~ In sep x) a -> split sep (join [sep] a) = a.
Proof.
  induction a as [|x a IH]; [congruence|]; intros _ H.
  inversion H as [|? ? Hx Ha]; subst.
  destruct a as [|y a]; [apply split_no_sep; assumption|].
  change (join [sep] (x :: y :: a)) with (x ++ sep :: join [sep] (y :: a)).
  rewrite split_app_sep by assumption.
  f_equal; apply IH; [discriminate | assumption].
Qed.

(* ================================================================== *)
(** ** The matcher decides the denotation *)
(* ================================================================== *)

Import Regex.

Create HintDb regex.
#[local] Hint Constructors Matches : regex.

Lemma Matches_Seq (r1 r2 : regex) (s : jsstring) :
  Matches (Seq r1 r2) s <->
  exists s1 s2, s = s1 ++ s2 /\ Matches r1 s1 /\ Matches r2 s2.
Proof.
  split.
  - intros H; inversion H; subst; eauto.
  - intros (s1 & s2 & -> & H1 & H2); constructor; assumption.
Qed.

Lemma nullable_Matches (r : regex) : nullable r = true <-> Matches r [].
Proof.
  induction r as [| |p|r1 IH1 r2 IH2|r1 IH1 r2 IH2|r IH]; simpl.
  - split; [discriminate | intros H; inversion H].
  - split; auto with regex.
  - split; [discriminate | intros H; inversion H].
  - rewrite andb_true_iff, IH1, IH2; split.
    + intros [H1 H2]; change (@nil code_unit) with (@nil code_unit ++ []).
      auto with regex.
    + intros H; apply Matches_Seq in H; destruct H as (s1 & s2 & E & H1 & H2).
      symmetry in E; apply app_eq_nil in E; destruct E; subst; auto.
  - rewrite orb_true_iff, IH1, IH2; split.
    + intros [H | H]; auto with regex.
    + intros H; inversion H; subst; auto.
  - split; auto with regex.
Qed.

(** A non-empty match of [r*] starts with a non-empty match of [r]. *)
Lemma Matches_Star_cons (r : regex) (c : code_unit) (s : jsstring) :
  Matches (Star r) (c :: s) ->
  exists s1 s2, s = s1 ++ s2 /\ Matches r (c :: s1) /\ Matches (Star r) s2.
Proof.
  intros H; remember (Star r) as r' eqn:Er; remember (c :: s) as s' eqn:Es.
  revert c s Es; induction H as [| | | | | |r0 s1 s2 H1 _ H2 IH2];
    intros c0 s0 Es; try discriminate.
  inversion Er; subst r0.
  destruct s1 as [|d s1]; simpl in Es.
  - apply IH2; [reflexivity | assumption].
  - inversion Es; subst; exists s1, s2; auto.
Qed.

Lemma deriv_Matches (r : regex) (c : code_unit) (s : jsstring) :
  Matches (deriv c r) s <-> Matches r (c :: s).
Proof.
  revert s; induction r as [| |p|r1 IH1 r2 IH2|r1 IH1 r2 IH2|r IH];
    intros s; simpl.
  - split; intros H; inversion H.
  - split; intros H; inversion H.
  - destruct (p c) eqn:E; split; intros H; inversion H; subst.
    + auto with regex.
    + constructor.
    + congruence.
  - assert (L : Matches (Seq (deriv c r1) r2) s -> Matches (Seq r1 r2) (c :: s)).
    { intros H; inversion H; subst.
      change (c :: s1 ++ s2) with ((c :: s1) ++ s2).
      constructor; [apply IH1|]; assumption. }
    assert (R : Matches (Seq r1 r2) (c :: s) ->
                Matches (Seq (deriv c r1) r2) s \/
                (nullable r1 = true /\ Matches (deriv c r2) s)).
    { intros H; apply Matches_Seq in H; destruct H as (s1 & s2 & E & H1 & H2).
      destruct s1 as [|d s1]; simpl in E.
      - right; subst; split; [apply nullable_Matches | apply IH2]; assumption.
      - left; inversion E; subst; constructor; [apply IH1|]; assumption. }
    destruct (nullable r1) eqn:N; split; intros H.
    + inversion H; subst; [auto|].
      change (c :: s) with ([] ++ c :: s); constructor;
        [apply nullable_Matches | apply IH2]; assumption.
    + destruct (R H) as [H' | [_ H']]; auto with regex.
    + auto.
    + destruct (R H) as [H' | [H' _]]; [assumption | discriminate].
  - split; intros H; inversion H; subst.
    + apply MAltL, IH1; assumption.
    + apply MAltR, IH2; assumption.
    + apply MAltL, IH1; assumption.
    + apply MAltR, IH2; assumption.
  - split; intros H.
    + inversion H; subst.
      change (c :: s1 ++ s2) with ((c :: s1) ++ s2).
      constructor; [apply IH|]; assumption.
    + apply Matches_Star_cons in H; destruct H as (s1 & s2 & -> & H1 & H2).
      constructor; [apply IH|]; assumption.
Qed.

(** [test] accepts exactly the strings the pattern denotes. *)
Lemma test_Matches (r : regex) (s : jsstring) :
  test r s = true <-> Matches r s.
Proof.
  revert r; induction s as [|c s IH]; intros r; simpl.
  - apply nullable_Matches.
  - rewrite IH; apply deriv_Matches.
Qed.

(** [[p]+] denotes the non-empty strings over the class [p]. *)
Lemma Matches_Star_Class (p : code_unit -> bool) (s : jsstring) :
  Matches (Star (Class p)) s <-> forallb p s = true.
Proof.
  split.
  - intros H; remember (Star (Class p)) as r eqn:Er.
    induction H as [| | | | | |r0 s1 s2 H1 _ H2 IH2]; try discriminate.
    + reflexivity.
    + inversion Er; subst r0; inversion H1; subst; simpl.
      rewrite IH2 by reflexivity.
      rewrite andb_true_r; assumption.
  - induction s as [|c s IH]; simpl; intros H; [constructor|].
    apply andb_true_iff in H; destruct H as [Hc Hs].
    change (c :: s) with ([c] ++ s); constructor; auto with regex.
Qed.

Lemma Matches_Plus_Class (p : code_unit -> bool) (s : jsstring) :
  Matches (Plus (Class p)) s <-> s <> [] /\ forallb p s = true.
Proof.
  unfold Plus; split.
  - intros H; inversion H as [| |? ? s1 s2 H1 H2| | | |]; subst.
    inversion H1; subst; apply Matches_Star_Class in H2; simpl.
    split; [discriminate | rewrite H2, andb_true_r; assumption].
  - destruct s as [|c s]; intros [Hne H]; [congruence|].
    simpl in H; apply andb_true_iff in H; destruct H as [Hc Hs].
    change (c :: s) with ([c] ++ s); constructor;
      [constructor | apply Matches_Star_Class]; assumption.
Qed.

Lemma Matches_Chr (c : code_unit) (s : jsstring) :
  Matches (Chr c) s <-> s = [c].
Proof.
  unfold Chr; split.
  - intros H; inversion H as [|? d E| | | | |]; subst.
    apply N.eqb_eq in E; subst; reflexivity.
  - intros ->; constructor; apply N.eqb_refl.
Qed.

(* ================================================================== *)
(** ** The email validator *)
(* ================================================================== *)

Lemma address_char_spec (c : code_unit) :
  address_char c = true <-> isWhiteSpace c = false /\ c <> AT.
Proof.
  unfold address_char.
  rewrite negb_true_iff, orb_false_iff, N.eqb_neq; tauto.
Qed.

Lemma address_part_class (s : jsstring) :
  Matches (Plus (Class address_char)) s <-> address_part s.
Proof.
  rewrite Matches_Plus_Class; unfold address_part.
  rewrite forallb_forall, Forall_forall.
  split; intros [Hne H]; (split; [assumption|]); intros c Hc;
    apply address_char_spec, H, Hc.
Qed.

Lemma email_pattern_shape (s : jsstring) :
  Matches email_pattern s <-> address_shape s.
Proof.
  unfold email_pattern, address_shape; split.
  - intros H.
    apply Matches_Seq in H; destruct H as (l & s1 & -> & Hl & H).
    apply Matches_Seq in H; destruct H as (a & s2 & -> & Ha & H).
    apply Matches_Seq in H; destruct H as (d & s3 & -> & Hd & H).
    apply Matches_Seq in H; destruct H as (o & t & -> & Ho & Ht).
    apply Matches_Chr in Ha, Ho; subst.
    exists l, d, t; rewrite <- !address_part_class; auto.
  - intros (l & d & t & -> & Hl & Hd & Ht).
    rewrite <- address_part_class in Hl, Hd, Ht.
    repeat (apply MSeq; try assumption); apply Matches_Chr; reflexivity.
Qed.

Lemma validateEmail_true_iff (s : jsstring) :
  validateEmail s = true <-> address_shape (trim s).
Proof.
  unfold validateEmail; rewrite test_Matches; apply email_pattern_shape.
Qed.

(** C3. [validateEmail] accepts a string exactly when the trimmed string is
    one or more code units that are neither white space nor [@], then [@],
    then one or more such code units, then [.], then one or more such code
    units.  It rejects [not-an-email] and accepts [user@example.com]. *)
Theorem validateEmail_accepts_shape :
  (forall s, validateEmail s = true <-> address_shape (trim s)) /\
  validateEmail (lit "not-an-email") = false /\
  validateEmail (lit "user@example.com") = true.
Proof.
  split; [exact validateEmail_true_iff | split; reflexivity].
Qed.

(* ================================================================== *)
(** ** The handlers *)
(* ================================================================== *)

Lemma length_zero_nil {A} (l : list A) : (length l =? 0)%nat = true <-> l = [].
Proof. rewrite Nat.eqb_eq; apply length_zero_iff_nil. Qed.

Lemma length_pos_not_nil {A} (l : list A) :
  (0 <? length l)%nat = true <-> l <> [].
Proof.
  rewrite Nat.ltb_lt; destruct l; simpl; split; intros H.
  - exfalso; lia.
  - congruence.
  - discriminate.
  - lia.
Qed.

Lemma falsy_nil (s : jsstring) : falsy s = true <-> s = [].
Proof. destruct s; unfold falsy; simpl; split; congruence. Qed.

Lemma after_fetch_duplicateInfo (out : send_outcome) (st : FormState) :
  st_duplicateInfo (after_fetch out st) = st_duplicateInfo st.
Proof.
  destruct out as [e|d|data]; simpl; try reflexivity.
  destruct (successful data =? total data)%Z; reflexivity.
Qed.

(** A full run: two distinct valid addresses out of three lines, every
    send succeeds, the form is emptied and the report kept. *)
Example submit_all_sent :
  handleSubmit toLowerCaseLatin (always (SendOk all_sent))
    (filled_form three_lines)
  = (mkFormState [] [] [] false (Some all_sent) [] false
       (lit "1 duplicate email address removed"),
     [three_lines_request]).
Proof. reflexivity. Qed.

(** The same submission with one send refused: the form stays. *)
Example submit_one_refused :
  let report :=
    mkEmailResponse 2 1 1
      [mkEmailResult (lit "a@b.com") true (lit "Email sent successfully");
       mkEmailResult (lit "c@d.org") false (lit "Failed: Invalid email address")]
  in
  handleSubmit toLowerCaseLatin (always (SendOk report))
    (filled_form three_lines)
  = (mkFormState (lit "S") (lit "B") three_lines false (Some report) [] false
       (lit "1 duplicate email address removed"),
     [three_lines_request]).
Proof. reflexivity. Qed.

(** A response that is not ok and carries no detail. *)
Example submit_not_ok :
  handleSubmit toLowerCaseLatin (always (SendNotOk None))
    (filled_form three_lines)
  = (mkFormState (lit "S") (lit "B") three_lines false None
       (lit "Failed to send emails") false
       (lit "1 duplicate email address removed"),
     [three_lines_request]).
Proof. reflexivity. Qed.

(** Upper-case extensions are not the recognized ones. *)
Example upload_upper_case_name :
  handleFileUpload (fun _ => UploadOk []) (Some (mkFile (lit "LIST.XLSX")))
    (filled_form [])
  = (setError (lit "Please upload an Excel file (.xlsx or .xls)")
       (filled_form []), []).
Proof. reflexivity. Qed.

(** An upload that returns no row leaves an empty recipients field. *)
Example upload_no_rows :
  handleFileUpload (fun _ => UploadOk []) (Some (mkFile (lit "list.xls")))
    (filled_form three_lines)
  = (filled_form [], [mkFile (lit "list.xls")]).
Proof. reflexivity. Qed.

Section HandlerFacts.

Variable toLowerCase : jsstring -> jsstring.

(** What the proofs take from the built-in: on the Basic Latin block it is
    [A]-[Z] to [a]-[z]; lower-casing twice is lower-casing once; it neither
    empties a string, nor puts white space at an end of a string that had
    none there, nor brings in a line feed. *)
Hypothesis toLowerCase_latin :
  forall s, forallb isBasicLatin s = true -> toLowerCase s = toLowerCaseLatin s.
Hypothesis toLowerCase_idem :
  forall s, toLowerCase (toLowerCase s) = toLowerCase s.
Hypothesis toLowerCase_trimmed :
  forall s, trim s = s -> trim (toLowerCase s) = toLowerCase s.
Hypothesis toLowerCase_nonempty :
  forall s, s <> [] -> toLowerCase s <> [].
Hypothesis toLowerCase_LF :
  forall s, ~ In LF s -> ~ In LF (toLowerCase s).

Lemma uniqueRecipients_spec (raw : jsstring) :
  uniqueRecipients toLowerCase raw = spec_normalize toLowerCase raw.
Proof. apply new_Set_first_occurrences. Qed.

Lemma uniqueRecipients_length (raw : jsstring) :
  (length (uniqueRecipients toLowerCase raw)
   <= length (recipientList raw))%nat.
Proof.
  rewrite uniqueRecipients_spec; unfold spec_normalize, recipientList.
  etransitivity; [apply first_occurrences_length|].
  rewrite length_map; reflexivity.
Qed.

(** The duplicate feedback of a submission that passes the recipient
    checks, whatever happens afterwards. *)
Lemma handleSubmit_duplicateInfo fetch (st : FormState) :
  uniqueRecipients toLowerCase (st_recipients st) <> [] ->
  invalidEmails toLowerCase (st_recipients st) = [] ->
  st_duplicateInfo (fst (handleSubmit toLowerCase fetch st)) =
  if (0 <? removedCount toLowerCase (st_recipients st))%nat
  then Number_toString (removedCount toLowerCase (st_recipients st))
         ++ lit " duplicate email address removed"
  else [].
Proof.
  intros Hne Hval; unfold handleSubmit.
  destruct (length _ =? 0)%nat eqn:E0;
    [apply length_zero_nil in E0; contradiction|].
  rewrite Hval; change (0 <? length (@nil jsstring))%nat with false; cbv iota.
  assert (Hlt : (length (uniqueRecipients toLowerCase (st_recipients st))
                 <? length (recipientList (st_recipients st)))%nat
                = (0 <? removedCount toLowerCase (st_recipients st))%nat).
  { unfold removedCount.
    destruct (Nat.ltb_spec (length (uniqueRecipients toLowerCase (st_recipients st)))
                (length (recipientList (st_recipients st))));
      symmetry; [apply Nat.ltb_lt | apply Nat.ltb_ge]; lia. }
  rewrite Hlt.
  destruct (falsy (trim (st_subject st))); [|destruct (falsy (trim (st_body st)))];
    cbn [fst]; rewrite ?after_fetch_duplicateInfo;
    destruct (0 <? removedCount toLowerCase (st_recipients st))%nat; reflexivity.
Qed.

(** C1. The recipient list [handleSubmit] computes is the one the
    specification describes: split on newlines, trim, drop the empty lines,
    lower-case, keep the first occurrence of every address; the count it
    reports is the number of non-empty trimmed lines less the number of
    distinct entries.  On the specification's three lines the list is
    [a@b.com, c@d.org] and the count is 1. *)
Theorem normalizer_meets_spec :
  (forall raw,
     uniqueRecipients toLowerCase raw = spec_normalize toLowerCase raw /\
     removedCount toLowerCase raw = spec_duplicate_count toLowerCase raw) /\
  (forall fetch st,
     uniqueRecipients toLowerCase (st_recipients st) <> [] ->
     invalidEmails toLowerCase (st_recipients st) = [] ->
     st_duplicateInfo (fst (handleSubmit toLowerCase fetch st)) =
     if (0 <? spec_duplicate_count toLowerCase (st_recipients st))%nat
     then Number_toString (spec_duplicate_count toLowerCase (st_recipients st))
            ++ lit " duplicate email address removed"
     else []) /\
  uniqueRecipients toLowerCase three_lines = [lit "a@b.com"; lit "c@d.org"] /\
  removedCount toLowerCase three_lines = 1%nat /\
  (forall fetch st,
     st_recipients st = three_lines ->
     st_duplicateInfo (fst (handleSubmit toLowerCase fetch st)) =
     lit "1 duplicate email address removed").
Proof.
  assert (Hcount : forall raw,
    removedCount toLowerCase raw = spec_duplicate_count toLowerCase raw).
  { intros raw; unfold removedCount, spec_duplicate_count.
    rewrite uniqueRecipients_spec; reflexivity. }
  assert (Hex : uniqueRecipients toLowerCase three_lines
                = [lit "a@b.com"; lit "c@d.org"]).
  { unfold uniqueRecipients.
    change (recipientList three_lines)
      with [lit "a@b.com"; lit "a@B.com"; lit "c@d.org"].
    simpl map; rewrite !toLowerCase_latin by reflexivity.
    reflexivity. }
  assert (Hrem : removedCount toLowerCase three_lines = 1%nat).
  { unfold removedCount; rewrite Hex; reflexivity. }
  split; [intros raw; split; [apply uniqueRecipients_spec | apply Hcount]|].
  split; [intros fetch st Hne Hval; rewrite <- Hcount;
          apply handleSubmit_duplicateInfo; assumption|].
  split; [exact Hex|]; split; [exact Hrem|].
  intros fetch st Hst.
  rewrite handleSubmit_duplicateInfo; rewrite Hst.
  - rewrite Hrem; reflexivity.
  - rewrite Hex; discriminate.
  - unfold invalidEmails; rewrite Hex; reflexivity.
Qed.

(** *** The recipient checks *)

Lemma filter_nil_all {A} (f : A -> bool) (l : list A) :
  filter f l = [] <-> forall x, In x l -> f x = false.
Proof.
  induction l as [|y l IH]; simpl; [tauto|].
  destruct (f y) eqn:E; split.
  - discriminate.
  - intros H; specialize (H y (or_introl eq_refl)); congruence.
  - intros H x [<- | Hx]; [assumption | apply IH; assumption].
  - intros H; apply IH; auto.
Qed.

Lemma invalidEmails_In (raw x : jsstring) :
  In x (invalidEmails toLowerCase raw) <->
  In x (uniqueRecipients toLowerCase raw) /\ validateEmail x = false.
Proof.
  unfold invalidEmails; rewrite filter_In, negb_true_iff; reflexivity.
Qed.

Lemma invalidEmails_nil (raw : jsstring) :
  invalidEmails toLowerCase raw = [] <->
  forall x, In x (uniqueRecipients toLowerCase raw) -> validateEmail x = true.
Proof.
  unfold invalidEmails; rewrite filter_nil_all.
  split; intros H x Hx; specialize (H x Hx);
    destruct (validateEmail x); simpl in *; congruence.
Qed.

Lemma invalidEmails_unique_not_nil (raw : jsstring) :
  invalidEmails toLowerCase raw <> [] -> uniqueRecipients toLowerCase raw <> [].
Proof.
  unfold invalidEmails; intros H E; rewrite E in H; apply H; reflexivity.
Qed.

(** The three ways [handleSubmit] can go wrong before it reaches [fetch],
    and the one way it reaches it. *)
Lemma handleSubmit_no_recipient fetch (st : FormState) :
  uniqueRecipients toLowerCase (st_recipients st) = [] ->
  handleSubmit toLowerCase fetch st =
  (setError (lit "Please enter at least one recipient email address")
     (setDuplicateInfo [] (setResults None (setError [] st))), []).
Proof.
  intros H; unfold handleSubmit; rewrite H; reflexivity.
Qed.

Lemma handleSubmit_invalid fetch (st : FormState) :
  invalidEmails toLowerCase (st_recipients st) <> [] ->
  handleSubmit toLowerCase fetch st =
  (setError (lit "Invalid email addresses: "
             ++ join (lit ", ") (invalidEmails toLowerCase (st_recipients st)))
     (setDuplicateInfo [] (setResults None (setError [] st))), []).
Proof.
  intros H; unfold handleSubmit.
  destruct (length _ =? 0)%nat eqn:E.
  - apply length_zero_nil in E; exfalso; revert E.
    apply invalidEmails_unique_not_nil; assumption.
  - apply length_pos_not_nil in H; rewrite H; reflexivity.
Qed.

(** The state once the recipient checks have passed and the duplicate
    feedback is set. *)
Lemma handleSubmit_checked fetch (st : FormState) :
  uniqueRecipients toLowerCase (st_recipients st) <> [] ->
  invalidEmails toLowerCase (st_recipients st) = [] ->
  exists info,
    let st1 := setDuplicateInfo info
                 (setDuplicateInfo [] (setResults None (setError [] st))) in
    let request := mkSendRequest (st_subject st) (st_body st)
                     (uniqueRecipients toLowerCase (st_recipients st)) in
    handleSubmit toLowerCase fetch st =
    if falsy (trim (st_subject st)) then
      (setError (lit "Please enter a subject") st1, [])
    else if falsy (trim (st_body st)) then
      (setError (lit "Please enter a message") st1, [])
    else (after_fetch (fetch request) (setLoading true st1), [request]).
Proof.
  intros Hne Hval; unfold handleSubmit.
  destruct (length _ =? 0)%nat eqn:E0;
    [apply length_zero_nil in E0; contradiction|].
  rewrite Hval; change (0 <? length (@nil jsstring))%nat with false; cbv iota.
  destruct (_ <? _)%nat; eexists; reflexivity.
Qed.

(** C4. When some normalized recipient fails validation the submission is
    rejected as a whole: the error message lists the invalid addresses, all
    of them, nothing is posted to the send endpoint, and the form fields
    stay as they were. *)
Theorem invalid_address_rejects_submission fetch (st : FormState) :
  invalidEmails toLowerCase (st_recipients st) <> [] ->
  snd (handleSubmit toLowerCase fetch st) = [] /\
  st_error (fst (handleSubmit toLowerCase fetch st)) =
    lit "Invalid email addresses: "
    ++ join (lit ", ") (invalidEmails toLowerCase (st_recipients st)) /\
  (forall x, In x (uniqueRecipients toLowerCase (st_recipients st)) ->
             validateEmail x = false ->
             In x (invalidEmails toLowerCase (st_recipients st))) /\
  st_results (fst (handleSubmit toLowerCase fetch st)) = None /\
  st_loading (fst (handleSubmit toLowerCase fetch st)) = st_loading st /\
  st_subject (fst (handleSubmit toLowerCase fetch st)) = st_subject st /\
  st_body (fst (handleSubmit toLowerCase fetch st)) = st_body st /\
  st_recipients (fst (handleSubmit toLowerCase fetch st)) = st_recipients st.
Proof.
  intros H; rewrite (handleSubmit_invalid fetch st H); simpl.
  repeat split; try reflexivity.
  intros x Hx Hv; apply invalidEmails_In; auto.
Qed.

(** C5. With no recipient after normalization, or a subject or a body that
    is empty once trimmed, the submission stops in the handler: nothing is
    posted, no report is stored, the loading flag and the form fields are
    untouched, and the error is exactly one of the handler's four
    messages, the one of the first check that fails. *)
Theorem input_error_blocks_submission fetch (st : FormState) :
  uniqueRecipients toLowerCase (st_recipients st) = [] \/
  trim (st_subject st) = [] \/ trim (st_body st) = [] ->
  let st' := fst (handleSubmit toLowerCase fetch st) in
  snd (handleSubmit toLowerCase fetch st) = [] /\
  st_error st' <> [] /\
  ( (uniqueRecipients toLowerCase (st_recipients st) = [] /\
     st_error st' = lit "Please enter at least one recipient email address")
    \/
    (invalidEmails toLowerCase (st_recipients st) <> [] /\
     st_error st' =
       lit "Invalid email addresses: "
       ++ join (lit ", ") (invalidEmails toLowerCase (st_recipients st)))
    \/
    (uniqueRecipients toLowerCase (st_recipients st) <> [] /\
     invalidEmails toLowerCase (st_recipients st) = [] /\
     trim (st_subject st) = [] /\
     st_error st' = lit "Please enter a subject")
    \/
    (uniqueRecipients toLowerCase (st_recipients st) <> [] /\
     invalidEmails toLowerCase (st_recipients st) = [] /\
     trim (st_subject st) <> [] /\ trim (st_body st) = [] /\
     st_error st' = lit "Please enter a message") ) /\
  st_results st' = None /\
  st_loading st' = st_loading st /\
  st_subject st' = st_subject st /\
  st_body st' = st_body st /\
  st_recipients st' = st_recipients st.
Proof.
  intros H st'; subst st'.
  destruct (uniqueRecipients toLowerCase (st_recipients st)) as [|u us] eqn:Eu.
  { rewrite (handleSubmit_no_recipient fetch st Eu); simpl.
    repeat split; try reflexivity; [discriminate | left; auto]. }
  destruct (invalidEmails toLowerCase (st_recipients st)) as [|i others] eqn:Ei.
  2:{ assert (Hi : invalidEmails toLowerCase (st_recipients st) <> [])
        by (rewrite Ei; discriminate).
      rewrite (handleSubmit_invalid fetch st Hi), Ei; simpl.
      repeat split; try reflexivity; [discriminate|].
      right; left; split; [discriminate | reflexivity]. }
  assert (Hu : uniqueRecipients toLowerCase (st_recipients st) <> [])
    by (rewrite Eu; discriminate).
  destruct (handleSubmit_checked fetch st Hu Ei) as [info ->]; cbv zeta.
  destruct H as [H | H]; [discriminate|].
  destruct (falsy (trim (st_subject st))) eqn:Es.
  { apply falsy_nil in Es; simpl.
    repeat split; try reflexivity; [discriminate|].
    right; right; left; repeat split; auto; discriminate. }
  destruct H as [H | H]; [apply falsy_nil in H; congruence|].
  assert (Hs : trim (st_subject st) <> []).
  { intros E; apply falsy_nil in E; congruence. }
  pose proof H as Hb; apply falsy_nil in Hb; rewrite Hb; simpl.
  repeat split; try reflexivity; [discriminate|].
  right; right; right; repeat split; auto; discriminate.
Qed.

(** C10. With an invalid address among the normalized recipients the
    handler returns on the invalid-address error before it sets the
    duplicate feedback: the feedback, emptied when the handler starts, is
    empty afterwards, also when duplicates were removed (as in the input
    [a@b.com], [A@B.com], [not-an-email], where one was).  Feedback that is
    shown therefore belongs to a submission whose addresses all pass. *)
Theorem invalid_address_hides_duplicate_feedback :
  (forall fetch st,
     invalidEmails toLowerCase (st_recipients st) <> [] ->
     st_duplicateInfo (fst (handleSubmit toLowerCase fetch st)) = [] /\
     st_error (fst (handleSubmit toLowerCase fetch st)) =
       lit "Invalid email addresses: "
       ++ join (lit ", ") (invalidEmails toLowerCase (st_recipients st))) /\
  (forall fetch st,
     st_duplicateInfo (fst (handleSubmit toLowerCase fetch st)) <> [] ->
     (0 < removedCount toLowerCase (st_recipients st))%nat /\
     forall x, In x (uniqueRecipients toLowerCase (st_recipients st)) ->
               validateEmail x = true) /\
  (forall fetch st,
     st_recipients st = duplicate_and_invalid ->
     removedCount toLowerCase (st_recipients st) = 1%nat /\
     st_duplicateInfo (fst (handleSubmit toLowerCase fetch st)) = [] /\
     st_error (fst (handleSubmit toLowerCase fetch st)) =
       lit "Invalid email addresses: not-an-email").
Proof.
  assert (Hinv : forall fetch st,
     invalidEmails toLowerCase (st_recipients st) <> [] ->
     st_duplicateInfo (fst (handleSubmit toLowerCase fetch st)) = [] /\
     st_error (fst (handleSubmit toLowerCase fetch st)) =
       lit "Invalid email addresses: "
       ++ join (lit ", ") (invalidEmails toLowerCase (st_recipients st))).
  { intros fetch st H; rewrite (handleSubmit_invalid fetch st H).
    split; reflexivity. }
  split; [exact Hinv|]; split.
  - intros fetch st Hinfo.
    destruct (uniqueRecipients toLowerCase (st_recipients st)) as [|u us] eqn:Eu.
    { rewrite (handleSubmit_no_recipient fetch st Eu) in Hinfo.
      exfalso; apply Hinfo; reflexivity. }
    destruct (invalidEmails toLowerCase (st_recipients st)) as [|i others] eqn:Ei.
    2:{ exfalso; apply Hinfo, Hinv; rewrite Ei; discriminate. }
    assert (Hu : uniqueRecipients toLowerCase (st_recipients st) <> [])
      by (rewrite Eu; discriminate).
    rewrite (handleSubmit_duplicateInfo fetch st Hu Ei) in Hinfo.
    split.
    + destruct (Nat.ltb_spec 0 (removedCount toLowerCase (st_recipients st)));
        [assumption | exfalso; apply Hinfo; reflexivity].
    + rewrite <- Eu; apply invalidEmails_nil; assumption.
  - intros fetch st Hst.
    assert (Hex : uniqueRecipients toLowerCase (st_recipients st)
                  = [lit "a@b.com"; lit "not-an-email"]).
    { rewrite Hst; unfold uniqueRecipients.
      change (recipientList duplicate_and_invalid)
        with [lit "a@b.com"; lit "A@B.com"; lit "not-an-email"].
      simpl map; rewrite !toLowerCase_latin by reflexivity.
      reflexivity. }
    assert (Hbad : invalidEmails toLowerCase (st_recipients st)
                   = [lit "not-an-email"]).
    { unfold invalidEmails; rewrite Hex; reflexivity. }
    split; [unfold removedCount; rewrite Hex, Hst; reflexivity|].
    destruct (Hinv fetch st) as [H1 H2]; [rewrite Hbad; discriminate|].
    rewrite H1, H2, Hbad; split; reflexivity.
Qed.

Lemma after_fetch_fields (out : send_outcome) (st : FormState) :
  match out with
  | SendOk data =>
      st_results (after_fetch out st) = Some data /\
      if (successful data =? total data)%Z
      then st_subject (after_fetch out st) = [] /\
           st_body (after_fetch out st) = [] /\
           st_recipients (after_fetch out st) = []
      else st_subject (after_fetch out st) = st_subject st /\
           st_body (after_fetch out st) = st_body st /\
           st_recipients (after_fetch out st) = st_recipients st
  | _ =>
      st_subject (after_fetch out st) = st_subject st /\
      st_body (after_fetch out st) = st_body st /\
      st_recipients (after_fetch out st) = st_recipients st
  end.
Proof.
  destruct out as [e|d|data]; simpl; auto.
  destruct (successful data =? total data)%Z; simpl; auto.
Qed.

(** A request is posted only after all four checks have passed. *)
Lemma handleSubmit_posts fetch (st : FormState) (req : SendRequest) :
  In req (snd (handleSubmit toLowerCase fetch st)) ->
  uniqueRecipients toLowerCase (st_recipients st) <> [] /\
  invalidEmails toLowerCase (st_recipients st) = [] /\
  trim (st_subject st) <> [] /\ trim (st_body st) <> [] /\
  req = mkSendRequest (st_subject st) (st_body st)
          (uniqueRecipients toLowerCase (st_recipients st)) /\
  snd (handleSubmit toLowerCase fetch st) = [req] /\
  exists info,
    fst (handleSubmit toLowerCase fetch st) =
    after_fetch (fetch req)
      (setLoading true
         (setDuplicateInfo info
            (setDuplicateInfo [] (setResults None (setError [] st))))).
Proof.
  intros Hin.
  destruct (uniqueRecipients toLowerCase (st_recipients st)) as [|u us] eqn:Eu.
  { rewrite (handleSubmit_no_recipient fetch st Eu) in Hin; destruct Hin. }
  destruct (invalidEmails toLowerCase (st_recipients st)) as [|i others] eqn:Ei.
  2:{ rewrite handleSubmit_invalid in Hin by (rewrite Ei; discriminate).
      destruct Hin. }
  assert (Hu : uniqueRecipients toLowerCase (st_recipients st) <> [])
    by (rewrite Eu; discriminate).
  destruct (handleSubmit_checked fetch st Hu Ei) as [info E]; cbv zeta in E.
  rewrite E in *; clear E.
  destruct (falsy (trim (st_subject st))) eqn:Es; [destruct Hin|].
  destruct (falsy (trim (st_body st))) eqn:Eb; [destruct Hin|].
  destruct Hin as [<- | []].
  rewrite <- Eu.
  repeat split; try discriminate; try reflexivity.
  - rewrite Eu; discriminate.
  - intros H; apply falsy_nil in H; congruence.
  - intros H; apply falsy_nil in H; congruence.
  - exists info; reflexivity.
Qed.

(** C6. Once a send has been posted: on a report the three form fields are
    emptied exactly when [successful] equals [total], and are as before the
    submission when it does not; on an error of the send itself (a response
    that is not ok, a failed call) they are as before the submission. *)
Theorem fields_cleared_iff_all_sent fetch (st : FormState) (req : SendRequest) :
  snd (handleSubmit toLowerCase fetch st) = [req] ->
  let st' := fst (handleSubmit toLowerCase fetch st) in
  match fetch req with
  | SendOk data =>
      st_results st' = Some data /\
      ((st_subject st' = [] /\ st_body st' = [] /\ st_recipients st' = [])
       <-> successful data = total data) /\
      (successful data <> total data ->
       st_subject st' = st_subject st /\ st_body st' = st_body st /\
       st_recipients st' = st_recipients st)
  | SendNotOk _ | SendThrows _ =>
      st_results st' = None /\
      st_subject st' = st_subject st /\ st_body st' = st_body st /\
      st_recipients st' = st_recipients st
  end.
Proof.
  intros Hreq st'; subst st'.
  assert (Hin : In req (snd (handleSubmit toLowerCase fetch st)))
    by (rewrite Hreq; left; reflexivity).
  destruct (handleSubmit_posts fetch st req Hin)
    as (_ & _ & Hs & _ & _ & _ & info & ->).
  pose proof (after_fetch_fields (fetch req)
    (setLoading true
       (setDuplicateInfo info
          (setDuplicateInfo [] (setResults None (setError [] st)))))) as H.
  destruct (fetch req) as [e|d|data]; simpl in H |- *.
  - tauto.
  - tauto.
  - destruct H as [_ H].
    destruct (Z.eqb_spec (successful data) (total data)) as [E | E]; simpl.
    + tauto.
    + split; [reflexivity|]; split; [|tauto].
      split; [|tauto]; intros [H1 _]; exfalso.
      apply Hs; rewrite H1; reflexivity.
Qed.

(** What a normalized recipient is: the lower-casing of a trimmed,
    non-empty line that holds no line feed. *)
Lemma uniqueRecipients_In (raw x : jsstring) :
  In x (uniqueRecipients toLowerCase raw) ->
  exists line, x = toLowerCase line /\ trim line = line /\ line <> [] /\
               ~ In LF line.
Proof.
  unfold uniqueRecipients; rewrite new_Set_first_occurrences.
  rewrite first_occurrences_In, in_map_iff.
  intros (line & <- & Hl); exists line; split; [reflexivity|].
  unfold recipientList in Hl; apply filter_In in Hl; destruct Hl as [Hl Hne].
  apply in_map_iff in Hl; destruct Hl as (piece & <- & Hp).
  split; [apply trim_idem|]; split.
  - destruct (trim piece); [discriminate | discriminate].
  - intros H; apply trim_incl in H.
    pose proof (split_pieces LF raw) as Hall.
    rewrite Forall_forall in Hall; exact (Hall piece Hp H).
Qed.

Lemma uniqueRecipients_NoDup (raw : jsstring) :
  NoDup (uniqueRecipients toLowerCase raw).
Proof.
  unfold uniqueRecipients; rewrite new_Set_first_occurrences.
  apply first_occurrences_NoDup.
Qed.

Lemma address_shape_not_nil (s : jsstring) : address_shape s -> s <> [].
Proof.
  intros (l & d & t & -> & [Hl _] & _); destruct l; [congruence | discriminate].
Qed.

(** C9. The recipients of a posted request are pairwise distinct; each is
    non-empty, is its own lower-casing, has no white space at either end,
    and passes the validator, as it stands having the shape the pattern
    asks for. *)
Theorem posted_recipients_are_clean fetch (st : FormState) (req : SendRequest) :
  In req (snd (handleSubmit toLowerCase fetch st)) ->
  req_recipients req <> [] /\
  NoDup (req_recipients req) /\
  Forall (fun x => x <> [] /\ toLowerCase x = x /\ trim x = x /\
                   validateEmail x = true /\ address_shape x)
         (req_recipients req).
Proof.
  intros Hin.
  destruct (handleSubmit_posts fetch st req Hin)
    as (Hne & Hval & _ & _ & -> & _); simpl.
  split; [assumption|]; split; [apply uniqueRecipients_NoDup|].
  apply Forall_forall; intros x Hx.
  destruct (uniqueRecipients_In _ _ Hx) as (line & -> & Htrim & _ & _).
  assert (Hv : validateEmail (toLowerCase line) = true).
  { rewrite invalidEmails_nil in Hval; apply Hval; assumption. }
  assert (Ht : trim (toLowerCase line) = toLowerCase line)
    by (apply toLowerCase_trimmed; assumption).
  assert (Hshape : address_shape (toLowerCase line)).
  { rewrite <- Ht; apply validateEmail_true_iff; assumption. }
  repeat split; auto.
  apply address_shape_not_nil; assumption.
Qed.

(** C8. Normalizing is idempotent: joining the normalized list with
    newlines and normalizing the text so obtained gives the same list. *)
Theorem normalize_idempotent (raw : jsstring) :
  uniqueRecipients toLowerCase (join [LF] (uniqueRecipients toLowerCase raw))
  = uniqueRecipients toLowerCase raw.
Proof.
  set (u := uniqueRecipients toLowerCase raw).
  assert (Hall : forall x, In x u ->
            toLowerCase x = x /\ trim x = x /\ x <> [] /\ ~ In LF x).
  { intros x Hx; destruct (uniqueRecipients_In _ _ Hx)
      as (line & -> & Ht & Hne & Hlf); auto. }
  assert (Hnodup : NoDup u) by apply uniqueRecipients_NoDup.
  clearbody u; unfold uniqueRecipients, recipientList.
  destruct u as [|x u]; [reflexivity|].
  rewrite split_join;
    [| discriminate | apply Forall_forall; intros y Hy; apply Hall, Hy].
  assert (Emap : forall f : jsstring -> jsstring,
            (forall y, In y (x :: u) -> f y = y) -> map f (x :: u) = x :: u).
  { intros f Hf; rewrite <- (map_id (x :: u)) at 2.
    apply map_ext_in; assumption. }
  rewrite (Emap trim) by (intros y Hy; apply Hall, Hy).
  assert (Efil : filter nonempty (x :: u) = x :: u).
  { apply forallb_filter_id, forallb_forall; intros y Hy.
    destruct (Hall y Hy) as (_ & _ & Hne & _); destruct y; [congruence|reflexivity]. }
  rewrite Efil, (Emap toLowerCase) by (intros y Hy; apply Hall, Hy).
  rewrite new_Set_first_occurrences; apply first_occurrences_id; assumption.
Qed.

End HandlerFacts.

(* ================================================================== *)
(** ** The upload guard *)
(* ================================================================== *)

Lemma endsWith_spec (s suffix : jsstring) :
  endsWith s suffix = true <-> ends_in s suffix.
Proof.
  unfold endsWith, ends_in; rewrite andb_true_iff, Nat.leb_le, str_eqb_eq.
  split.
  - intros [_ H]; exists (firstn (length s - length suffix) s).
    pose proof (firstn_skipn (length s - length suffix) s) as E.
    rewrite H in E; symmetry; exact E.
  - intros [front ->]; rewrite length_app; split; [lia|].
    replace (length front + length suffix - length suffix)%nat
      with (length front + 0)%nat by lia.
    rewrite skipn_app, Nat.add_0_r, skipn_all.
    replace (length front - length front)%nat with 0%nat by lia.
    reflexivity.
Qed.

(** C7. A chosen file whose name ends neither in [.xlsx] nor in [.xls] is
    turned down in the handler, with an error and nothing posted; the file
    is posted to the upload endpoint exactly when its name ends in one of
    the two. *)
Theorem upload_needs_spreadsheet_name fetch (f : File) (st : FormState) :
  (ends_in (name f) (lit ".xlsx") \/ ends_in (name f) (lit ".xls")
   <-> snd (handleFileUpload fetch (Some f) st) = [f]) /\
  (~ ends_in (name f) (lit ".xlsx") /\ ~ ends_in (name f) (lit ".xls")
   <-> handleFileUpload fetch (Some f) st =
       (setError (lit "Please upload an Excel file (.xlsx or .xls)") st, [])).
Proof.
  unfold handleFileUpload; rewrite <- !endsWith_spec.
  destruct (endsWith (name f) (lit ".xlsx")) eqn:Ex;
    [|destruct (endsWith (name f) (lit ".xls")) eqn:Es]; simpl.
  - split; split; intros H; auto.
    + destruct H as [H _]; exfalso; auto.
    + discriminate.
  - split; split; intros H; auto.
    + destruct H as [_ H]; exfalso; auto.
    + discriminate.
  - split; split; intros H; auto; try discriminate.
    destruct H; discriminate.
Qed.

(* ================================================================== *)
(** ** The send orchestrator *)
(* ================================================================== *)

Import Orchestrator.

Section SendFacts.

Variable PState : Type.
Variable provider : PState -> invocation -> delivery * PState.
Variables subject body : jsstring.

Lemma attempt_email (r : jsstring) (ps : PState) :
  email (fst (attempt provider subject body r ps)) = r.
Proof.
  unfold attempt; destruct (provider ps _) as [[|reason] ps']; reflexivity.
Qed.

(** A result says [success] exactly when the provider delivered. *)
Lemma attempt_success (r : jsstring) (ps : PState) :
  success (fst (attempt provider subject body r ps)) = true <->
  fst (provider ps (mkInvocation r subject body)) = Delivered.
Proof.
  unfold attempt; destruct (provider ps _) as [[|reason] ps']; simpl;
    split; congruence.
Qed.

(** The loop adds, to what it was given, one result and one invocation per
    recipient, in the order of the recipients. *)
Lemma send_loop_spec (recipients : list jsstring) (ps : PState)
    (acc : list EmailResult) (log : list invocation) :
  exists res ps',
    send_loop provider subject body recipients ps acc log =
      (acc ++ res,
       log ++ map (fun r => mkInvocation r subject body) recipients, ps') /\
    map email res = recipients.
Proof.
  revert ps acc log; induction recipients as [|r rest IH];
    intros ps acc log; simpl.
  - exists [], ps; rewrite !app_nil_r; auto.
  - pose proof (attempt_email r ps) as He.
    destruct (attempt provider subject body r ps) as [res1 ps1]; simpl in He.
    destruct (IH ps1 (acc ++ [res1])
                (log ++ [mkInvocation r subject body]))
      as (res & ps' & -> & Hm).
    exists (res1 :: res), ps'; rewrite <- !app_assoc; simpl.
    split; [reflexivity | congruence].
Qed.

End SendFacts.

Lemma send_loop_stateless (answer : invocation -> delivery)
    (subject body : jsstring) (recipients : list jsstring)
    (acc : list EmailResult) (log : list invocation) :
  fst (fst (send_loop (stateless answer) subject body recipients tt acc log))
  = acc ++ map (result_of answer subject body) recipients.
Proof.
  revert acc log; induction recipients as [|r rest IH]; intros acc log; simpl.
  - symmetry; apply app_nil_r.
  - unfold result_of.
    destruct (attempt (stateless answer) subject body r tt) as [res1 []] eqn:E.
    rewrite IH, <- app_assoc; reflexivity.
Qed.

(** C2. The report of a send holds one result per recipient, in the order
    of the recipients; [total] is their number, [successful] the number of
    results with [success] true, [failed] the rest.  The provider is
    invoked once for every recipient, whatever it answered for the others;
    with a provider that answers by the invocation alone, a recipient's
    result is fixed by the answer for that recipient.  For the recipients
    [x@a.com], [y@a.com] and a provider that delivers the first only, the
    report is 2, 1, 1 with the two results in that order. *)
Theorem send_report_per_recipient :
  (forall (PState : Type) (provider : PState -> invocation -> delivery * PState)
          (subject body : jsstring) (recipients : list jsstring) (ps : PState),
     let report := fst (send_emails provider subject body recipients ps) in
     map email (results report) = recipients /\
     length (results report) = length recipients /\
     total report = Z.of_nat (length recipients) /\
     successful report =
       Z.of_nat (length (filter success (results report))) /\
     failed report = (total report - successful report)%Z /\
     snd (send_emails provider subject body recipients ps) =
       map (fun r => mkInvocation r subject body) recipients) /\
  (forall (answer : invocation -> delivery) (subject body : jsstring)
          (recipients : list jsstring),
     results (fst (send_emails (stateless answer) subject body recipients tt))
     = map (result_of answer subject body) recipients /\
     forall r, success (result_of answer subject body r) = true <->
               answer (mkInvocation r subject body) = Delivered) /\
  fst (send_emails (stateless only_x) (lit "S") (lit "B")
         [lit "x@a.com"; lit "y@a.com"] tt) =
  mkEmailResponse 2 1 1
    [mkEmailResult (lit "x@a.com") true (lit "Email sent successfully");
     mkEmailResult (lit "y@a.com") false (lit "Failed: Invalid email address")].
Proof.
  split; [|split; [|reflexivity]].
  - intros PState provider subject body recipients ps report; subst report.
    unfold send_emails.
    destruct (send_loop_spec PState provider subject body recipients ps [] [])
      as (res & ps' & -> & Hm); simpl.
    repeat split; try assumption.
    rewrite <- (length_map email res), Hm; reflexivity.
  - intros answer subject body recipients; split.
    + pose proof (send_loop_stateless answer subject body recipients [] []) as H.
      unfold send_emails.
      destruct (send_loop (stateless answer) subject body recipients tt [] [])
        as [[res log] ps']; simpl in *; assumption.
    + intros r; unfold result_of.
      rewrite (attempt_success unit); reflexivity.
Qed.

(* ================================================================== *)
(** ** Lower-casing on the Basic Latin block has what the proofs ask *)
(* ================================================================== *)

Lemma isWhiteSpace_letters (c : code_unit) :
  (65 <= c <= 122)%N -> isWhiteSpace c = false.
Proof.
  intros H; unfold isWhiteSpace.
  repeat rewrite (proj2 (N.eqb_neq c _)) by lia.
  rewrite (proj2 (N.leb_gt 8192 c)) by lia.
  reflexivity.
Qed.

Lemma lowerLatin_cases (c : code_unit) :
  (lowerLatin c = c /\ ~ (65 <= c <= 90)%N) \/
  (lowerLatin c = (c + 32)%N /\ (65 <= c <= 90)%N).
Proof.
  unfold lowerLatin.
  destruct (N.leb_spec 65 c), (N.leb_spec c 90); simpl;
    try (left; split; [reflexivity | lia]).
  right; split; [reflexivity | lia].
Qed.

Lemma lowerLatin_idem (c : code_unit) : lowerLatin (lowerLatin c) = lowerLatin c.
Proof.
  destruct (lowerLatin_cases c) as [[E H] | [E H]]; rewrite E.
  - assumption.
  - destruct (lowerLatin_cases (c + 32)%N) as [[E' _] | [_ H']]; [assumption | lia].
Qed.

Lemma lowerLatin_space (c : code_unit) :
  isWhiteSpace (lowerLatin c) = isWhiteSpace c.
Proof.
  destruct (lowerLatin_cases c) as [[E H] | [E H]]; rewrite E; [reflexivity|].
  rewrite !isWhiteSpace_letters by lia; reflexivity.
Qed.

Lemma trimStart_map (f : code_unit -> code_unit) (s : jsstring) :
  (forall c, isWhiteSpace (f c) = isWhiteSpace c) ->
  trimStart (map f s) = map f (trimStart s).
Proof.
  intros Hf; induction s as [|c s IH]; simpl; [reflexivity|].
  rewrite Hf; destruct (isWhiteSpace c); [assumption | reflexivity].
Qed.

Lemma trim_map (f : code_unit -> code_unit) (s : jsstring) :
  (forall c, isWhiteSpace (f c) = isWhiteSpace c) ->
  trim (map f s) = map f (trim s).
Proof.
  intros Hf; unfold trim, trimEnd.
  rewrite trimStart_map, <- map_rev, trimStart_map, map_rev by assumption.
  reflexivity.
Qed.

Lemma toLowerCaseLatin_latin (s : jsstring) :
  forallb isBasicLatin s = true -> toLowerCaseLatin s = toLowerCaseLatin s.
Proof. reflexivity. Qed.

Lemma toLowerCaseLatin_idem (s : jsstring) :
  toLowerCaseLatin (toLowerCaseLatin s) = toLowerCaseLatin s.
Proof.
  unfold toLowerCaseLatin; rewrite map_map.
  apply map_ext; intros c; apply lowerLatin_idem.
Qed.

Lemma toLowerCaseLatin_trimmed (s : jsstring) :
  trim s = s -> trim (toLowerCaseLatin s) = toLowerCaseLatin s.
Proof.
  intros H; unfold toLowerCaseLatin.
  rewrite trim_map by apply lowerLatin_space; rewrite H; reflexivity.
Qed.

Lemma toLowerCaseLatin_nonempty (s : jsstring) :
  s <> [] -> toLowerCaseLatin s <> [].
Proof. destruct s; [congruence | discriminate]. Qed.

Lemma toLowerCaseLatin_LF (s : jsstring) :
  ~ In LF s -> ~ In LF (toLowerCaseLatin s).
Proof.
  intros H Hin; apply H; unfold toLowerCaseLatin in Hin.
  apply in_map_iff in Hin; destruct Hin as (c & E & Hc).
  destruct (lowerLatin_cases c) as [[E' _] | [E' R]]; rewrite E' in E.
  - subst c; assumption.
  - unfold LF in E; lia.
Qed.

(* ================================================================== *)
(** ** The theorems at concrete submissions *)
(* ================================================================== *)

Lemma normalizer_meets_spec_witness :
  uniqueRecipients toLowerCaseLatin three_lines
    = [lit "a@b.com"; lit "c@d.org"] /\
  removedCount toLowerCaseLatin three_lines = 1%nat /\
  st_duplicateInfo
    (fst (handleSubmit toLowerCaseLatin (always (SendOk all_sent))
            (filled_form three_lines)))
    = lit "1 duplicate email address removed".
Proof.
  destruct (normalizer_meets_spec toLowerCaseLatin toLowerCaseLatin_latin)
    as (_ & _ & H1 & H2 & H3).
  split; [exact H1|]; split; [exact H2|].
  apply H3; reflexivity.
Defined.

Lemma invalid_address_rejects_submission_witness :
  invalidEmails toLowerCaseLatin
    (st_recipients (filled_form duplicate_and_invalid)) <> [] /\
  snd (handleSubmit toLowerCaseLatin (always (SendOk all_sent))
         (filled_form duplicate_and_invalid)) = [].
Proof.
  assert (H : invalidEmails toLowerCaseLatin
                (st_recipients (filled_form duplicate_and_invalid)) <> [])
    by (vm_compute; discriminate).
  split; [exact H|].
  exact (proj1 (invalid_address_rejects_submission toLowerCaseLatin
                  (always (SendOk all_sent))
                  (filled_form duplicate_and_invalid) H)).
Defined.

Lemma input_error_blocks_submission_witness :
  uniqueRecipients toLowerCaseLatin (st_recipients (filled_form [LF])) = [] /\
  snd (handleSubmit toLowerCaseLatin (always (SendOk all_sent))
         (filled_form [LF])) = [].
Proof.
  split; [reflexivity|].
  exact (proj1 (input_error_blocks_submission toLowerCaseLatin
                  (always (SendOk all_sent)) (filled_form [LF])
                  (or_introl eq_refl))).
Defined.

Lemma fields_cleared_iff_all_sent_witness :
  snd (handleSubmit toLowerCaseLatin (always (SendOk all_sent))
         (filled_form three_lines)) = [three_lines_request] /\
  ((st_subject (fst (handleSubmit toLowerCaseLatin (always (SendOk all_sent))
                       (filled_form three_lines))) = [] /\
    st_body (fst (handleSubmit toLowerCaseLatin (always (SendOk all_sent))
                    (filled_form three_lines))) = [] /\
    st_recipients (fst (handleSubmit toLowerCaseLatin (always (SendOk all_sent))
                          (filled_form three_lines))) = [])
   <-> successful all_sent = total all_sent).
Proof.
  split; [reflexivity|].
  exact (proj1 (proj2 (fields_cleared_iff_all_sent toLowerCaseLatin
                         (always (SendOk all_sent)) (filled_form three_lines)
                         three_lines_request eq_refl))).
Defined.

Lemma normalize_idempotent_witness :
  uniqueRecipients toLowerCaseLatin
    (join [LF] (uniqueRecipients toLowerCaseLatin three_lines))
  = uniqueRecipients toLowerCaseLatin three_lines.
Proof.
  exact (normalize_idempotent toLowerCaseLatin toLowerCaseLatin_idem
           toLowerCaseLatin_trimmed toLowerCaseLatin_nonempty
           toLowerCaseLatin_LF three_lines).
Defined.

Lemma posted_recipients_are_clean_witness :
  In three_lines_request
     (snd (handleSubmit toLowerCaseLatin (always (SendOk all_sent))
             (filled_form three_lines))) /\
  NoDup (req_recipients three_lines_request).
Proof.
  assert (H : In three_lines_request
                (snd (handleSubmit toLowerCaseLatin (always (SendOk all_sent))
                        (filled_form three_lines))))
    by (left; reflexivity).
  split; [exact H|].
  exact (proj1 (proj2 (posted_recipients_are_clean toLowerCaseLatin
                         toLowerCaseLatin_idem toLowerCaseLatin_trimmed
                         (always (SendOk all_sent)) (filled_form three_lines)
                         three_lines_request H))).
Defined.

Lemma invalid_address_hides_duplicate_feedback_witness :
  removedCount toLowerCaseLatin duplicate_and_invalid = 1%nat /\
  st_duplicateInfo
    (fst (handleSubmit toLowerCaseLatin (always (SendOk all_sent))
            (filled_form duplicate_and_invalid))) = [].
Proof.
  destruct (invalid_address_hides_duplicate_feedback toLowerCaseLatin
              toLowerCaseLatin_latin) as (_ & _ & H).
  destruct (H (always (SendOk all_sent)) (filled_form duplicate_and_invalid)
              eq_refl) as (H1 & H2 & _).
  split; [exact H1 | exact H2].
Defined.

(* ================================================================== *)
(** ** Further facts on trimming and splitting *)
(* ================================================================== *)

Lemma trimStart_nil_iff (s : jsstring) :
  trimStart s = [] <-> forallb isWhiteSpace s = true.
Proof.
  induction s as [|c s IH]; simpl; [tauto|].
  destruct (isWhiteSpace c); simpl; [assumption|].
  split; discriminate.
Qed.

Lemma forallb_rev {A} (f : A -> bool) (l : list A) :
  forallb f (rev l) = forallb f l.
Proof.
  induction l as [|x l IH]; simpl; [reflexivity|].
  rewrite forallb_app, IH; simpl; rewrite andb_true_r; apply andb_comm.
Qed.

Lemma forallb_trimStart (s : jsstring) :
  forallb isWhiteSpace (trimStart s) = forallb isWhiteSpace s.
Proof.
  induction s as [|c s IH]; simpl; [reflexivity|].
  destruct (isWhiteSpace c) eqn:E; simpl; [assumption|].
  rewrite E; reflexivity.
Qed.

(** A string trims to nothing exactly when it is white space throughout. *)
Lemma trim_nil_iff (s : jsstring) :
  trim s = [] <-> forallb isWhiteSpace s = true.
Proof.
  unfold trim, trimEnd; split; intros H.
  - apply (f_equal (@rev code_unit)) in H; rewrite rev_involutive in H.
    simpl in H; apply trimStart_nil_iff in H.
    rewrite forallb_rev, forallb_trimStart in H; exact H.
  - rewrite <- forallb_trimStart, <- forallb_rev in H.
    apply trimStart_nil_iff in H; rewrite H; reflexivity.
Qed.

Lemma trimEnd_snoc_space (s : jsstring) (c : code_unit) :
  isWhiteSpace c = true -> trimEnd (s ++ [c]) = trimEnd s.
Proof.
  intros H; unfold trimEnd; rewrite rev_app_distr; simpl; rewrite H.
  reflexivity.
Qed.

(** White space after a line does not show after trimming. *)
Lemma trim_snoc_space (s : jsstring) (c : code_unit) :
  isWhiteSpace c = true -> trim (s ++ [c]) = trim s.
Proof.
  intros H; unfold trim.
  rewrite <- !trimStart_trimEnd, trimEnd_snoc_space by assumption.
  reflexivity.
Qed.

(** Splitting a text that has the separator between two parts splits the
    parts. *)
Lemma split_app (sep : code_unit) (a b : jsstring) :
  split sep (a ++ sep :: b) = split sep a ++ split sep b.
Proof.
  induction a as [|c a IH]; simpl.
  - rewrite N.eqb_refl; reflexivity.
  - destruct (c =? sep)%N; rewrite IH; [reflexivity|].
    pose proof (split_not_nil sep a) as Hne.
    destruct (split sep a); [congruence | reflexivity].
Qed.

(** White space throughout a text is white space throughout its lines. *)
Lemma split_all_space (s : jsstring) :
  forallb isWhiteSpace s = true <->
  Forall (fun piece => forallb isWhiteSpace piece = true) (split LF s).
Proof.
  induction s as [|c s IH]; simpl.
  - split; [intros _; constructor; [reflexivity | constructor] | reflexivity].
  - destruct (N.eqb_spec c LF) as [-> | Hc].
    + change (isWhiteSpace LF) with true; simpl; rewrite IH.
      split; [intros H; constructor; [reflexivity | assumption]|].
      intros H; inversion H; assumption.
    + pose proof (split_not_nil LF s) as Hne.
      destruct (split LF s) as [|p ps]; [congruence|].
      rewrite andb_true_iff, IH; split.
      * intros [Hc' H]; inversion H; subst; constructor; [|assumption].
        simpl; rewrite Hc'; assumption.
      * intros H; inversion H as [|? ? Hp Hps]; subst; simpl in Hp.
        apply andb_true_iff in Hp; destruct Hp; split; [assumption|].
        constructor; assumption.
Qed.

Lemma filter_map_swap {A B} (f : B -> bool) (g : A -> B) (l : list A) :
  filter f (map g l) = map g (filter (fun x => f (g x)) l).
Proof.
  induction l as [|x l IH]; simpl; [reflexivity|].
  destruct (f (g x)); simpl; rewrite IH; reflexivity.
Qed.

Lemma recipientList_nil_iff (raw : jsstring) :
  recipientList raw = [] <-> forallb isWhiteSpace raw = true.
Proof.
  unfold recipientList; rewrite split_all_space, filter_nil_all, Forall_forall.
  split.
  - intros H piece Hp; apply trim_nil_iff.
    specialize (H (trim piece) (in_map trim _ _ Hp)).
    destruct (trim piece); [reflexivity | discriminate].
  - intros H line Hl; apply in_map_iff in Hl; destruct Hl as (piece & <- & Hp).
    apply H, trim_nil_iff in Hp; rewrite Hp; reflexivity.
Qed.

(* ================================================================== *)
(** ** Further properties of the submit handler *)
(* ================================================================== *)

Lemma or_else_nonempty (detail : option jsstring) (fallback : jsstring) :
  fallback <> [] -> or_else detail fallback <> [].
Proof.
  intros H; destruct detail as [[|c d]|]; simpl; try assumption; discriminate.
Qed.

Lemma after_fetch_results (out : send_outcome) (st : FormState) :
  st_results (after_fetch out st) =
  match out with SendOk data => Some data | _ => st_results st end.
Proof.
  destruct out as [e|d|data]; simpl; try reflexivity.
  destruct (successful data =? total data)%Z; reflexivity.
Qed.

Lemma after_fetch_error (out : send_outcome) (st : FormState) :
  st_error (after_fetch out st) =
  match out with
  | SendOk _ => st_error st
  | SendNotOk detail => or_else detail (lit "Failed to send emails")
  | SendThrows e => catch_message e
  end.
Proof.
  destruct out as [e|d|data]; simpl; try reflexivity.
  destruct (successful data =? total data)%Z; reflexivity.
Qed.

Lemma after_fetch_flags (out : send_outcome) (st : FormState) :
  st_loading (after_fetch out st) = false /\
  st_uploading (after_fetch out st) = st_uploading st.
Proof.
  destruct out as [e|d|data]; simpl; auto.
  destruct (successful data =? total data)%Z; auto.
Qed.

Lemma new_Set_nil_iff (a : list jsstring) : new_Set a = [] <-> a = [].
Proof.
  rewrite new_Set_first_occurrences; destruct a; simpl; split;
    congruence.
Qed.

Section SubmitFacts.

Variable toLowerCase : jsstring -> jsstring.

Lemma uniqueRecipients_nil_iff (raw : jsstring) :
  uniqueRecipients toLowerCase raw = [] <-> recipientList raw = [].
Proof.
  unfold uniqueRecipients; rewrite new_Set_nil_iff.
  destruct (recipientList raw); simpl; split; congruence.
Qed.

(** Every run of [handleSubmit] is of one of two kinds: it stops on a
    message of its own and posts nothing, or it posts one request and
    goes on with the answer. *)
Lemma handleSubmit_cases fetch (st : FormState) :
  let base := setResults None (setError [] st) in
  (exists msg info,
     msg <> [] /\
     handleSubmit toLowerCase fetch st
     = (setError msg (setDuplicateInfo info base), [])) \/
  (exists req info,
     handleSubmit toLowerCase fetch st
     = (after_fetch (fetch req)
          (setLoading true (setDuplicateInfo info base)), [req])).
Proof.
  intros base; subst base.
  destruct (uniqueRecipients toLowerCase (st_recipients st)) as [|u us] eqn:Eu.
  { left; eexists; exists [].
    rewrite (handleSubmit_no_recipient toLowerCase fetch st Eu).
    split; [|reflexivity]; discriminate. }
  destruct (invalidEmails toLowerCase (st_recipients st)) as [|i others] eqn:Ei.
  2:{ left; eexists; exists [].
      rewrite (handleSubmit_invalid toLowerCase fetch st)
        by (rewrite Ei; discriminate).
      split; [|reflexivity]; discriminate. }
  assert (Hu : uniqueRecipients toLowerCase (st_recipients st) <> [])
    by (rewrite Eu; discriminate).
  destruct (handleSubmit_checked toLowerCase fetch st Hu Ei) as [info E].
  cbv zeta in E; rewrite E.
  destruct (falsy (trim (st_subject st)));
    [|destruct (falsy (trim (st_body st)))].
  - left; eexists; exists info; split; [|reflexivity]; discriminate.
  - left; eexists; exists info; split; [|reflexivity]; discriminate.
  - right; eexists; exists info; reflexivity.
Qed.

(** X1. The counter beside the upload button is absent exactly for the empty
    text; when it shows, it counts the non-blank lines before
    de-duplication: the recipients a submission would post plus the
    duplicates it would remove. *)
Theorem recipientCounter_counts_lines (raw : jsstring) :
  (recipientCounter raw = None <-> raw = []) /\
  (forall n, recipientCounter raw = Some n ->
     n = length (recipientList raw) /\
     n = (length (uniqueRecipients toLowerCase raw)
          + removedCount toLowerCase raw)%nat).
Proof.
  split.
  - unfold recipientCounter; destruct raw; simpl; split;
      congruence.
  - intros n Hn.
    assert (E : n = length (recipientList raw)).
    { unfold recipientCounter in Hn.
      destruct (nonempty raw); [|discriminate].
      inversion Hn; subst; unfold recipientList.
      rewrite filter_map_swap, length_map; reflexivity. }
    split; [assumption|].
    pose proof (uniqueRecipients_length toLowerCase raw).
    unfold removedCount; lia.
Qed.

(** X2. No recipient is found exactly in a text that is white space throughout
    (blank lines, spaces, tabs, carriage returns); submitting such a text
    posts nothing and asks for a recipient. *)
Theorem blank_text_has_no_recipient fetch (st : FormState) :
  (uniqueRecipients toLowerCase (st_recipients st) = [] <->
   forallb isWhiteSpace (st_recipients st) = true) /\
  (forallb isWhiteSpace (st_recipients st) = true ->
   snd (handleSubmit toLowerCase fetch st) = [] /\
   st_error (fst (handleSubmit toLowerCase fetch st))
   = lit "Please enter at least one recipient email address").
Proof.
  assert (H : uniqueRecipients toLowerCase (st_recipients st) = [] <->
              forallb isWhiteSpace (st_recipients st) = true)
    by (rewrite uniqueRecipients_nil_iff; apply recipientList_nil_iff).
  split; [exact H|].
  intros Hb; apply H in Hb.
  rewrite (handleSubmit_no_recipient toLowerCase fetch st Hb).
  split; reflexivity.
Qed.

(** X3. A submission posts at most one request, and it posts one exactly when
    there is a recipient, every normalized recipient passes the validator,
    and subject and body are not blank; the request carries the subject and
    the body as typed and the normalized recipients. *)
Theorem request_posted_iff_checks_pass fetch (st : FormState)
    (req : SendRequest) :
  (length (snd (handleSubmit toLowerCase fetch st)) <= 1)%nat /\
  (snd (handleSubmit toLowerCase fetch st) = [req] <->
   uniqueRecipients toLowerCase (st_recipients st) <> [] /\
   (forall x, In x (uniqueRecipients toLowerCase (st_recipients st)) ->
              validateEmail x = true) /\
   trim (st_subject st) <> [] /\ trim (st_body st) <> [] /\
   req = mkSendRequest (st_subject st) (st_body st)
           (uniqueRecipients toLowerCase (st_recipients st))).
Proof.
  split.
  - destruct (handleSubmit_cases fetch st) as [(m & i & _ & ->) | (r & i & ->)];
      simpl; lia.
  - split.
    + intros H.
      assert (Hin : In req (snd (handleSubmit toLowerCase fetch st)))
        by (rewrite H; left; reflexivity).
      destruct (handleSubmit_posts toLowerCase fetch st req Hin)
        as (Hu & Hv & Hs & Hb & Hr & _).
      rewrite invalidEmails_nil in Hv; auto.
    + intros (Hu & Hv & Hs & Hb & ->).
      apply invalidEmails_nil in Hv.
      destruct (handleSubmit_checked toLowerCase fetch st Hu Hv) as [info E].
      cbv zeta in E; rewrite E.
      destruct (falsy (trim (st_subject st))) eqn:Es;
        [apply falsy_nil in Es; contradiction|].
      destruct (falsy (trim (st_body st))) eqn:Eb;
        [apply falsy_nil in Eb; contradiction|].
      reflexivity.
Qed.

Lemma nonempty_true_iff (s : jsstring) : nonempty s = true <-> s <> [].
Proof. destruct s; simpl; split; congruence. Qed.

(** X4. After a submission a report is stored exactly when a request was
    posted and answered with that report, and then no error is shown;
    without a report an error is shown, except when the call failed with
    an [Error] whose message is empty. *)
Theorem report_or_error_after_submit fetch (st : FormState) :
  let st' := fst (handleSubmit toLowerCase fetch st) in
  (forall data,
     st_results st' = Some data <->
     exists req, snd (handleSubmit toLowerCase fetch st) = [req] /\
                 fetch req = SendOk data) /\
  (showsResults st' = true -> showsError st' = false) /\
  (showsResults st' = false ->
   showsError st' = true \/
   exists req, snd (handleSubmit toLowerCase fetch st) = [req] /\
               fetch req = SendThrows (ErrorObject [])).
Proof.
  intros st'; subst st'; unfold showsResults, showsError.
  destruct (handleSubmit_cases fetch st) as [(m & i & Hm & ->) | (r & i & ->)];
    cbn [fst snd].
  - change (st_results (setError m (setDuplicateInfo i
              (setResults None (setError [] st))))) with (@None EmailResponse).
    change (st_error (setError m (setDuplicateInfo i
              (setResults None (setError [] st))))) with m.
    split; [|split].
    + intros data; split; [discriminate | intros (req & H & _); discriminate].
    + discriminate.
    + intros _; left; apply nonempty_true_iff; assumption.
  - rewrite after_fetch_results, after_fetch_error.
    change (st_results (setLoading true (setDuplicateInfo i
              (setResults None (setError [] st))))) with (@None EmailResponse).
    change (st_error (setLoading true (setDuplicateInfo i
              (setResults None (setError [] st))))) with (@nil code_unit).
    destruct (fetch r) as [e|d|data0] eqn:Ef.
    + split; [|split].
      * intros data; split; [discriminate|].
        intros (req & H & Hf); inversion H; subst; congruence.
      * discriminate.
      * intros _; destruct e as [[|c msg]|]; simpl.
        -- right; exists r; auto.
        -- left; reflexivity.
        -- left; reflexivity.
    + split; [|split].
      * intros data; split; [discriminate|].
        intros (req & H & Hf); inversion H; subst; congruence.
      * discriminate.
      * intros _; left; apply nonempty_true_iff, or_else_nonempty; discriminate.
    + split; [|split].
      * intros data; split.
        -- intros H; inversion H; subst; exists r; auto.
        -- intros (req & H & Hf); inversion H; subst; congruence.
      * reflexivity.
      * discriminate.
Qed.

(** What a submission posts depends on the subject, the body and the
    recipients text alone. *)
Lemma handleSubmit_requests_by_fields fetch1 fetch2 (a b : FormState) :
  st_subject a = st_subject b -> st_body a = st_body b ->
  st_recipients a = st_recipients b ->
  snd (handleSubmit toLowerCase fetch1 a)
  = snd (handleSubmit toLowerCase fetch2 b).
Proof.
  intros Hs Hb Hr; unfold handleSubmit; rewrite Hs, Hb, Hr.
  repeat match goal with
         | |- context [if ?c then _ else _] => destruct c
         end; reflexivity.
Qed.

(** X5. Submitting again.  After a send that was not a full success (a report
    with [successful] other than [total], a response that is not ok, a
    failed call) the form is as it was, so a second submission posts the
    same request, to all recipients, those already served included.  After
    a full success the form is empty, so a second submission posts nothing
    and asks for a recipient. *)
Theorem resubmission_repeats_or_stops fetch1 fetch2 (st : FormState)
    (req : SendRequest) :
  snd (handleSubmit toLowerCase fetch1 st) = [req] ->
  let st' := fst (handleSubmit toLowerCase fetch1 st) in
  ((forall data, fetch1 req = SendOk data -> successful data <> total data) ->
   snd (handleSubmit toLowerCase fetch2 st') = [req]) /\
  (forall data, fetch1 req = SendOk data -> successful data = total data ->
   snd (handleSubmit toLowerCase fetch2 st') = [] /\
   st_error (fst (handleSubmit toLowerCase fetch2 st'))
   = lit "Please enter at least one recipient email address").
Proof.
  intros Hreq st'.
  assert (Hin : In req (snd (handleSubmit toLowerCase fetch1 st)))
    by (rewrite Hreq; left; reflexivity).
  destruct (handleSubmit_posts toLowerCase fetch1 st req Hin)
    as (_ & _ & _ & _ & _ & _ & info & E).
  pose proof (after_fetch_fields (fetch1 req)
    (setLoading true
       (setDuplicateInfo info
          (setDuplicateInfo [] (setResults None (setError [] st)))))) as H.
  rewrite <- E in H; fold st' in H; simpl in H.
  split.
  - intros Hpart; rewrite <- Hreq.
    destruct (fetch1 req) as [e|d|data] eqn:Ef.
    + apply handleSubmit_requests_by_fields; tauto.
    + apply handleSubmit_requests_by_fields; tauto.
    + destruct H as [_ H]; specialize (Hpart data eq_refl).
      destruct (Z.eqb_spec (successful data) (total data)); [contradiction|].
      apply handleSubmit_requests_by_fields; tauto.
  - intros data Ef Hfull; rewrite Ef in H; destruct H as [_ H].
    rewrite (proj2 (Z.eqb_eq _ _) Hfull) in H; destruct H as (_ & _ & Hr).
    assert (Hu : uniqueRecipients toLowerCase (st_recipients st') = [])
      by (rewrite Hr; reflexivity).
    rewrite (handleSubmit_no_recipient toLowerCase fetch2 st' Hu).
    split; reflexivity.
Qed.

(** X6. The busy flags are released: a submission that posted a request ends
    with [loading] false, one that did not leaves [loading] as it was, and
    no submission touches [uploading]; the same holds for an upload with
    the two flags exchanged. *)
Theorem busy_flags_are_released fetchS fetchU (file : option File)
    (st : FormState) :
  (snd (handleSubmit toLowerCase fetchS st) <> [] ->
   st_loading (fst (handleSubmit toLowerCase fetchS st)) = false) /\
  (snd (handleSubmit toLowerCase fetchS st) = [] ->
   st_loading (fst (handleSubmit toLowerCase fetchS st)) = st_loading st) /\
  st_uploading (fst (handleSubmit toLowerCase fetchS st)) = st_uploading st /\
  (snd (handleFileUpload fetchU file st) <> [] ->
   st_uploading (fst (handleFileUpload fetchU file st)) = false) /\
  (snd (handleFileUpload fetchU file st) = [] ->
   st_uploading (fst (handleFileUpload fetchU file st)) = st_uploading st) /\
  st_loading (fst (handleFileUpload fetchU file st)) = st_loading st.
Proof.
  split; [|split; [|split]].
  - destruct (handleSubmit_cases fetchS st) as [(m & i & _ & ->) | (r & i & ->)];
      cbn [fst snd]; [congruence|].
    intros _; apply after_fetch_flags.
  - destruct (handleSubmit_cases fetchS st) as [(m & i & _ & ->) | (r & i & ->)];
      cbn [fst snd]; [reflexivity | discriminate].
  - destruct (handleSubmit_cases fetchS st) as [(m & i & _ & ->) | (r & i & ->)];
      cbn [fst snd]; [reflexivity|].
    rewrite (proj2 (after_fetch_flags _ _)); reflexivity.
  - unfold handleFileUpload; destruct file as [f|]; [|simpl; tauto].
    destruct (negb (endsWith (name f) (lit ".xlsx")) &&
              negb (endsWith (name f) (lit ".xls"))); cbn [fst snd].
    + repeat split; try reflexivity; congruence.
    + repeat split; try discriminate; destruct (fetchU f); reflexivity.
Qed.

(** *** The normalizer on lines *)

(** X7. The normalized list holds the lower-casing of every non-blank trimmed
    line and nothing else, each exactly once however often and in whatever
    case the line occurs; the invalid addresses of an error message are
    not repeated either. *)
Theorem every_line_is_kept_once (raw : jsstring) :
  (forall x, In x (uniqueRecipients toLowerCase raw) <->
             exists line, In line (recipientList raw) /\ x = toLowerCase line) /\
  (forall line, In line (recipientList raw) ->
     count_occ str_dec (uniqueRecipients toLowerCase raw) (toLowerCase line)
     = 1%nat) /\
  NoDup (invalidEmails toLowerCase raw).
Proof.
  assert (Hin : forall x, In x (uniqueRecipients toLowerCase raw) <->
             exists line, In line (recipientList raw) /\ x = toLowerCase line).
  { intros x; unfold uniqueRecipients.
    rewrite new_Set_first_occurrences, first_occurrences_In, in_map_iff.
    split; intros (line & H1 & H2); exists line; auto. }
  split; [exact Hin|]; split.
  - intros line Hl.
    apply (proj1 (NoDup_count_occ' str_dec _)
             (uniqueRecipients_NoDup toLowerCase raw)).
    apply Hin; exists line; auto.
  - apply NoDup_filter, uniqueRecipients_NoDup.
Qed.

(** X8. Lines added below a text add their recipients after those of the
    text: the normalized list of the text is kept, in its order, and what
    follows are the normalized recipients of the added lines that were not
    there already. *)
Theorem appended_lines_extend_recipients (a b : jsstring) :
  recipientList (a ++ LF :: b) = recipientList a ++ recipientList b /\
  exists extra,
    uniqueRecipients toLowerCase (a ++ LF :: b)
    = uniqueRecipients toLowerCase a ++ extra /\
    forall x, In x extra <->
              In x (uniqueRecipients toLowerCase b) /\
              ~ In x (uniqueRecipients toLowerCase a).
Proof.
  assert (E : recipientList (a ++ LF :: b) = recipientList a ++ recipientList b).
  { unfold recipientList; rewrite split_app, map_app, filter_app; reflexivity. }
  split; [exact E|].
  unfold uniqueRecipients at 1; rewrite E, map_app.
  unfold new_Set; rewrite fold_left_app, fold_Set_add.
  fold (new_Set (map toLowerCase (recipientList a))).
  fold (uniqueRecipients toLowerCase a).
  eexists; split; [reflexivity|].
  intros x; rewrite filter_In, negb_true_iff.
  unfold uniqueRecipients at 2; rewrite new_Set_first_occurrences.
  rewrite <- not_true_iff_false, Set_has_In; reflexivity.
Qed.

End SubmitFacts.

(** A code unit added at the end of a text goes to the end of its last
    line. *)
Lemma split_snoc (c : code_unit) (s : jsstring) :
  c <> LF ->
  exists pieces last,
    split LF s = pieces ++ [last] /\
    split LF (s ++ [c]) = pieces ++ [last ++ [c]].
Proof.
  intros Hc; induction s as [|d s (pieces & last & E1 & E2)]; simpl.
  - exists [], []; apply N.eqb_neq in Hc; rewrite Hc; auto.
  - rewrite E1, E2; destruct (d =? LF)%N.
    + exists ([] :: pieces), last; auto.
    + destruct pieces as [|p pieces]; simpl.
      * exists [], (d :: last); auto.
      * exists ((d :: p) :: pieces), last; auto.
Qed.

Lemma recipientList_snoc_space (c : code_unit) (s : jsstring) :
  isWhiteSpace c = true -> c <> LF ->
  recipientList (s ++ [c]) = recipientList s.
Proof.
  intros Hw Hc; destruct (split_snoc c s Hc) as (pieces & last & E1 & E2).
  unfold recipientList; rewrite E1, E2, !map_app; simpl.
  rewrite trim_snoc_space by assumption; reflexivity.
Qed.

(** X9. White space at the end of a line, such as the carriage return of a
    Windows line ending, changes nothing in the recipients read from a
    text. *)
Theorem trailing_space_is_harmless (c : code_unit) (a b : jsstring) :
  isWhiteSpace c = true ->
  recipientList (a ++ c :: LF :: b) = recipientList (a ++ LF :: b) /\
  recipientList (a ++ [c]) = recipientList a.
Proof.
  intros Hw.
  destruct (N.eq_dec c LF) as [-> | Hc].
  - change (a ++ LF :: LF :: b) with (a ++ LF :: ([] ++ LF :: b)).
    unfold recipientList; rewrite !split_app, !map_app, !filter_app; simpl.
    rewrite app_nil_r; auto.
  - split; [|apply recipientList_snoc_space; assumption].
    change (a ++ c :: LF :: b) with (a ++ [c] ++ LF :: b).
    rewrite app_assoc.
    unfold recipientList; rewrite !split_app, !map_app, !filter_app.
    fold (recipientList (a ++ [c])); fold (recipientList a).
    rewrite recipientList_snoc_space by assumption; reflexivity.
Qed.

(* ================================================================== *)
(** ** Further properties of the upload handler *)
(* ================================================================== *)

(** X10. An upload writes to the recipients, the error and its own flag only:
    subject, body, a report on display and the duplicate feedback stay; and
    the recipients change only when a file was posted and the answer was
    ok, to the rows of the answer joined by line feeds. *)
Theorem upload_touches_recipients_and_error_only fetch (file : option File)
    (st : FormState) :
  let st' := fst (handleFileUpload fetch file st) in
  st_subject st' = st_subject st /\ st_body st' = st_body st /\
  st_results st' = st_results st /\
  st_duplicateInfo st' = st_duplicateInfo st /\
  (st_recipients st' = st_recipients st \/
   exists f emails,
     file = Some f /\ snd (handleFileUpload fetch file st) = [f] /\
     fetch f = UploadOk emails /\ st_recipients st' = join [LF] emails).
Proof.
  unfold handleFileUpload; destruct file as [f|]; [|simpl; tauto].
  destruct (negb (endsWith (name f) (lit ".xlsx")) &&
            negb (endsWith (name f) (lit ".xls"))); cbn [fst snd].
  - simpl; tauto.
  - destruct (fetch f) as [e|d|emails] eqn:Ef; simpl;
      repeat split; auto.
    right; exists f, emails; auto.
Qed.

(** X11. A posted upload by its answer: on rows, the recipients become the
    rows, one per line, and the error is emptied; on a response that is
    not ok, or a failed call, the recipients are kept and the error is
    set, never empty in the first case. *)
Theorem upload_outcome_by_answer fetch (f : File) (st : FormState) :
  snd (handleFileUpload fetch (Some f) st) = [f] ->
  let st' := fst (handleFileUpload fetch (Some f) st) in
  match fetch f with
  | UploadOk emails =>
      st_recipients st' = join [LF] emails /\ st_error st' = []
  | UploadNotOk detail =>
      st_recipients st' = st_recipients st /\
      st_error st' = or_else detail (lit "Failed to upload Excel file") /\
      st_error st' <> []
  | UploadThrows e =>
      st_recipients st' = st_recipients st /\ st_error st' = catch_message e
  end.
Proof.
  unfold handleFileUpload.
  destruct (negb (endsWith (name f) (lit ".xlsx")) &&
            negb (endsWith (name f) (lit ".xls"))); cbn [fst snd];
    [discriminate|].
  intros _; destruct (fetch f) as [e|d|emails]; simpl; auto.
  repeat split; apply or_else_nonempty; discriminate.
Qed.

Lemma handleFileUpload_rows fetch (f : File) (emails : list jsstring)
    (st : FormState) :
  snd (handleFileUpload fetch (Some f) st) = [f] ->
  fetch f = UploadOk emails ->
  st_recipients (fst (handleFileUpload fetch (Some f) st)) = join [LF] emails.
Proof.
  unfold handleFileUpload.
  destruct (negb (endsWith (name f) (lit ".xlsx")) &&
            negb (endsWith (name f) (lit ".xls"))); cbn [fst snd];
    [discriminate|].
  intros _ ->; reflexivity.
Qed.

Lemma recipientList_join (emails : list jsstring) :
  Forall (fun e => ~ In LF e) emails ->
  recipientList (join [LF] emails) = filter nonempty (map trim emails).
Proof.
  intros H; destruct emails as [|e emails]; [reflexivity|].
  unfold recipientList; rewrite split_join; [reflexivity | discriminate|].
  assumption.
Qed.

Lemma join_all_space (emails : list jsstring) :
  Forall (fun e => forallb isWhiteSpace e = true) emails ->
  forallb isWhiteSpace (join [LF] emails) = true.
Proof.
  induction 1 as [|e emails He _ IH]; [reflexivity|].
  destruct emails as [|e' emails]; [assumption|].
  change (join [LF] (e :: e' :: emails))
    with (e ++ [LF] ++ join [LF] (e' :: emails)).
  rewrite !forallb_app, He, IH; reflexivity.
Qed.

(** X12. Import, then submit.  When no row holds a line feed, the lines read
    back from the recipients field are the rows, trimmed, without the
    blank ones; so the recipients a submission works on are the rows,
    trimmed, lower-cased and de-duplicated. *)
Theorem imported_rows_become_recipients (toLowerCase : jsstring -> jsstring)
    fetch (f : File) (emails : list jsstring) (st : FormState) :
  snd (handleFileUpload fetch (Some f) st) = [f] ->
  fetch f = UploadOk emails ->
  Forall (fun e => ~ In LF e) emails ->
  let st' := fst (handleFileUpload fetch (Some f) st) in
  recipientList (st_recipients st') = filter nonempty (map trim emails) /\
  uniqueRecipients toLowerCase (st_recipients st')
  = new_Set (map toLowerCase (filter nonempty (map trim emails))).
Proof.
  intros Hp Hf Hlf st'.
  pose proof (handleFileUpload_rows fetch f emails st Hp Hf) as Hr.
  fold st' in Hr.
  unfold uniqueRecipients; rewrite Hr, recipientList_join by assumption.
  auto.
Qed.

(** X13. An import that brings no row, or blank rows only, leaves a recipients
    field from which a submission reads no recipient: it posts nothing and
    asks for one. *)
Theorem blank_import_then_submit (toLowerCase : jsstring -> jsstring)
    fetchU fetchS (f : File) (emails : list jsstring) (st : FormState) :
  snd (handleFileUpload fetchU (Some f) st) = [f] ->
  fetchU f = UploadOk emails ->
  Forall (fun e => forallb isWhiteSpace e = true) emails ->
  let st' := fst (handleFileUpload fetchU (Some f) st) in
  snd (handleSubmit toLowerCase fetchS st') = [] /\
  st_error (fst (handleSubmit toLowerCase fetchS st'))
  = lit "Please enter at least one recipient email address".
Proof.
  intros Hp Hf Hb st'.
  pose proof (handleFileUpload_rows fetchU f emails st Hp Hf) as Hr.
  fold st' in Hr.
  assert (Hu : uniqueRecipients toLowerCase (st_recipients st') = []).
  { apply uniqueRecipients_nil_iff, recipientList_nil_iff.
    rewrite Hr; apply join_all_space; assumption. }
  rewrite (handleSubmit_no_recipient toLowerCase fetchS st' Hu).
  split; reflexivity.
Qed.

(* ================================================================== *)
(** ** What an accepted address looks like *)
(* ================================================================== *)

Lemma address_part_count (s : jsstring) :
  address_part s -> count_occ N.eq_dec s AT = 0%nat.
Proof.
  intros [_ H]; apply count_occ_not_In; intros Hin.
  rewrite Forall_forall in H; destruct (H AT Hin) as [_ Hne]; congruence.
Qed.

Lemma address_part_no_space (s : jsstring) :
  address_part s -> forallb (fun c => negb (isWhiteSpace c)) s = true.
Proof.
  intros [_ H]; apply forallb_forall; intros c Hc.
  rewrite Forall_forall in H; destruct (H c Hc) as [Hw _].
  rewrite Hw; reflexivity.
Qed.

Lemma address_part_length (s : jsstring) :
  address_part s -> (1 <= length s)%nat.
Proof. intros [H _]; destruct s; [congruence | simpl; lia]. Qed.

(** X14. The validator does not see white space around an address.  An address
    it accepts has, once trimmed, exactly one [@], no white space and at
    least five code units. *)
Theorem accepted_address_facts (s : jsstring) :
  validateEmail (trim s) = validateEmail s /\
  (validateEmail s = true ->
   count_occ N.eq_dec (trim s) AT = 1%nat /\
   forallb (fun c => negb (isWhiteSpace c)) (trim s) = true /\
   (5 <= length (trim s))%nat).
Proof.
  split; [unfold validateEmail; rewrite trim_idem; reflexivity|].
  intros H; apply validateEmail_true_iff in H.
  destruct H as (l & d & t & -> & Hl & Hd & Ht).
  split; [|split].
  - rewrite !count_occ_app; simpl.
    rewrite !address_part_count by assumption.
    destruct (N.eq_dec AT AT); [|congruence].
    destruct (N.eq_dec DOT AT); [discriminate | reflexivity].
  - rewrite !forallb_app; simpl.
    rewrite !address_part_no_space by assumption; reflexivity.
  - rewrite !length_app; simpl.
    pose proof (address_part_length l Hl).
    pose proof (address_part_length d Hd).
    pose proof (address_part_length t Ht); lia.
Qed.

(* ================================================================== *)
(** ** The further theorems at concrete inputs *)
(* ================================================================== *)

Lemma resubmission_repeats_or_stops_witness :
  snd (handleSubmit toLowerCaseLatin (always (SendNotOk None))
         (filled_form three_lines)) = [three_lines_request] /\
  snd (handleSubmit toLowerCaseLatin (always (SendOk all_sent))
         (fst (handleSubmit toLowerCaseLatin (always (SendNotOk None))
                 (filled_form three_lines)))) = [three_lines_request].
Proof.
  split; [reflexivity|].
  apply (proj1 (resubmission_repeats_or_stops toLowerCaseLatin
                  (always (SendNotOk None)) (always (SendOk all_sent))
                  (filled_form three_lines) three_lines_request eq_refl)).
  intros data H; discriminate H.
Defined.

Lemma trailing_space_is_harmless_witness :
  isWhiteSpace CR = true /\
  recipientList (lit "a@b.com" ++ CR :: LF :: lit "c@d.org")
  = recipientList (lit "a@b.com" ++ LF :: lit "c@d.org").
Proof.
  split; [reflexivity|].
  exact (proj1 (trailing_space_is_harmless CR (lit "a@b.com") (lit "c@d.org")
                  eq_refl)).
Defined.

Lemma upload_outcome_by_answer_witness :
  snd (handleFileUpload (rows [lit "a@b.com"; lit "c@d.org"])
         (Some spreadsheet) (filled_form [])) = [spreadsheet] /\
  st_recipients (fst (handleFileUpload (rows [lit "a@b.com"; lit "c@d.org"])
                        (Some spreadsheet) (filled_form [])))
  = lit "a@b.com" ++ LF :: lit "c@d.org".
Proof.
  split; [reflexivity|].
  exact (proj1 (upload_outcome_by_answer (rows [lit "a@b.com"; lit "c@d.org"])
                  spreadsheet (filled_form []) eq_refl)).
Defined.

Lemma imported_rows_become_recipients_witness :
  Forall (fun e => ~ In LF e) [lit " A@b.com"; lit "a@B.com"; lit "  "] /\
  uniqueRecipients toLowerCaseLatin
    (st_recipients
       (fst (handleFileUpload (rows [lit " A@b.com"; lit "a@B.com"; lit "  "])
               (Some spreadsheet) (filled_form []))))
  = [lit "a@b.com"].
Proof.
  assert (H : Forall (fun e => ~ In LF e)
                [lit " A@b.com"; lit "a@B.com"; lit "  "]).
  { repeat constructor; intros H; simpl in H;
      repeat (destruct H as [H | H]; [discriminate H|]); exact H. }
  split; [exact H|].
  exact (proj2 (imported_rows_become_recipients toLowerCaseLatin
                  (rows [lit " A@b.com"; lit "a@B.com"; lit "  "])
                  spreadsheet [lit " A@b.com"; lit "a@B.com"; lit "  "]
                  (filled_form []) eq_refl eq_refl H)).
Defined.

Lemma blank_import_then_submit_witness :
  snd (handleSubmit toLowerCaseLatin (always (SendOk all_sent))
         (fst (handleFileUpload (rows [[CR]; lit " "]) (Some spreadsheet)
                 (filled_form three_lines)))) = [].
Proof.
  assert (H : Forall (fun e => forallb isWhiteSpace e = true) [[CR]; lit " "])
    by (repeat constructor).
  exact (proj1 (blank_import_then_submit toLowerCaseLatin
                  (rows [[CR]; lit " "]) (always (SendOk all_sent))
                  spreadsheet [[CR]; lit " "] (filled_form three_lines)
                  eq_refl eq_refl H)).
Defined.
